(** * Techstore: catalog querying, aggregation and the product API

    A shallow embedding of the storefront's data-access logic:
    - the [Product] record of [lib/supabase] and [app/admin/page.tsx];
    - the client-side filter of the [ProductList] component;
    - the dashboard fold [getDashboardData];
    - the recommended-set query [getRecommendedProducts];
    - the route handlers [GET], [POST] of [/api/products] and [GET], [PUT]
      of [/api/products/[slug]], run against a model of the hosted table;
    - the fetches of the home page and of the product page, the category
      selector and the stock badges, and the state of the admin page with
      the request its form submits.

    Numbers.  A JavaScript number is a binary64 value; the table stores
    [price] as an exact [numeric] and [inventory] as an [integer].  Here
    [price] is a rational ([Q]) and [inventory] an integer ([Z]).  Every
    statement about sums below is phrased on the left-to-right
    accumulation the code performs, so it does not rely on associativity,
    and the concrete figures involve small integers only.

    Strings.  A string is Unicode text in UTF-8, one character of the
    model per byte; on well-formed text, equality and containment of the
    encodings are those of the texts.  [String.prototype.toLowerCase] is a
    built-in of the engine, defined by the Unicode case mappings: it is a
    parameter ([Js.Runtime]) of which two properties are used, what it does
    to Basic Latin text and the rule of the final sigma on Greek capital
    letters. *)

From Stdlib Require Import Ascii String QArith Sorted.
From stdpp Require Import gmap strings list fin_maps pretty.

Local Open Scope string_scope.
Local Open Scope Z_scope.

(** ** Products *)

Record Product := mkProduct {
  id : string;
  name : string;
  slug : string;
  description : string;
  price : Q;
  category : string;
  inventory : Z;
  last_updated : string;
  created_at : string
}.

(** ** JavaScript strings *)

Module Js.

Definition lower_ascii (c : ascii) : ascii :=
  let n := nat_of_ascii c in
  if ((65 <=? n)%nat && (n <=? 90)%nat)%bool then ascii_of_nat (n + 32) else c.

(** Lowering of Basic Latin text: the letters A-Z become a-z. *)
Fixpoint lower_basic_latin (s : string) : string :=
  match s with
  | EmptyString => EmptyString
  | String c s' => String (lower_ascii c) (lower_basic_latin s')
  end.

(** The text holds Basic Latin characters (U+0000 to U+007F) only. *)
Fixpoint basic_latin (s : string) : bool :=
  match s with
  | EmptyString => true
  | String c s' => (nat_of_ascii c <? 128)%nat && basic_latin s'
  end.

(** A code point below U+0800 in UTF-8: one byte below U+0080, else two. *)
Definition utf8_char (cp : N) : string :=
  if (cp <? 128)%N then String (ascii_of_N cp) EmptyString
  else String (ascii_of_N (192 + cp / 64))
         (String (ascii_of_N (128 + cp mod 64)) EmptyString).

Definition utf8 (cps : list N) : string :=
  fold_right (fun cp s => utf8_char cp +:+ s) EmptyString cps.

(** A text made of Greek capital letters (U+0391 to U+03A9, U+03A2 being
    unassigned), as their code points; [None] for any other text.  In
    UTF-8 these letters are the byte 0xCE followed by 0x91 to 0xA9. *)
Fixpoint greek_capitals (s : string) : option (list N) :=
  match s with
  | EmptyString => Some []
  | String a (String b rest) =>
      let m := nat_of_ascii b in
      if ((nat_of_ascii a =? 206) && (145 <=? m) && (m <=? 169) && negb (m =? 162))%nat
      then match greek_capitals rest with
           | Some cps => Some ((768 + N.of_nat m)%N :: cps)
           | None => None
           end
      else None
  | String _ EmptyString => None
  end.

(** The lowering of a text of Greek capital letters: every letter becomes
    its small letter, 32 code points up; capital sigma (U+03A3) becomes the
    final small sigma (U+03C2) when it ends the text and does not begin
    it, the small sigma (U+03C3) otherwise. *)
Fixpoint lower_greek_from (first : bool) (cps : list N) : list N :=
  match cps with
  | [] => []
  | cp :: rest =>
      (if (cp =? 931)%N
       then (if negb first && match rest with [] => true | _ => false end
             then 962 else 963)%N
       else (cp + 32)%N)
      :: lower_greek_from false rest
  end.

Definition lower_greek (cps : list N) : list N := lower_greek_from true cps.

(** [String.prototype.toLowerCase] is a built-in of the engine, defined by
    the Unicode case mappings.  Two of its properties are used: on Basic
    Latin text it lowers the letters A-Z and nothing else, and on a text of
    Greek capital letters it follows the rule of the final sigma. *)
Class Runtime := {
  toLowerCase : string -> string;
  toLowerCase_basic_latin :
    forall s, basic_latin s = true -> toLowerCase s = lower_basic_latin s;
  toLowerCase_greek_capitals :
    forall s cps, greek_capitals s = Some cps -> toLowerCase s = utf8 (lower_greek cps)
}.

(** [String.prototype.startsWith] *)
Fixpoint startsWith (s t : string) {struct t} : bool :=
  match t, s with
  | EmptyString, _ => true
  | String _ _, EmptyString => false
  | String b t', String a s' => if Ascii.eqb a b then startsWith s' t' else false
  end.

(** [String.prototype.includes]: does [t] occur in [s] at some position? *)
Fixpoint includes (s t : string) : bool :=
  startsWith s t ||
  match s with
  | EmptyString => false
  | String _ s' => includes s' t
  end.



(** A lowering that has the two properties: Basic Latin and Greek capital
    letters are lowered, any other text is left as it is. *)
Definition lower_reference (s : string) : string :=
  if basic_latin s then lower_basic_latin s
  else match greek_capitals s with
       | Some cps => utf8 (lower_greek cps)
       | None => s
       end.

Definition reference_runtime : Runtime :=
  {| toLowerCase := lower_reference;
     toLowerCase_basic_latin := ltac:(
       intros s Hs; unfold lower_reference; rewrite Hs; reflexivity);
     toLowerCase_greek_capitals := ltac:(
       intros s cps Hs; unfold lower_reference;
       destruct s as [|a [|b rest]];
         [ injection Hs as <-; reflexivity
         | discriminate Hs
         | simpl in Hs |- *;
           destruct (nat_of_ascii a =? 206)%nat eqn:Ea; simpl in Hs; [|discriminate Hs];
           apply Nat.eqb_eq in Ea; rewrite Ea; simpl;
           rewrite Hs; reflexivity ]) |}.

End Js.

(** ** The client-side filter of [ProductList] *)

Section ProductListFilter.
Context `{Js.Runtime}.

Definition matchesSearch (searchTerm : string) (product : Product) : bool :=
  Js.includes (Js.toLowerCase (name product)) (Js.toLowerCase searchTerm).

Definition matchesCategory (selectedCategory : string) (product : Product) : bool :=
  String.eqb selectedCategory "all" || String.eqb (category product) selectedCategory.

Definition filteredProducts (products : list Product)
    (searchTerm selectedCategory : string) : list Product :=
  List.filter
    (fun product => matchesSearch searchTerm product
                    && matchesCategory selectedCategory product)
    products.


End ProductListFilter.


(** The Greek texts ΟΣΑ and ΟΣ (omicron, sigma, alpha), and a product named ΟΣΑ. *)
Definition omicron_sigma_alpha : string := Js.utf8 [927; 931; 913]%N.
Definition omicron_sigma : string := Js.utf8 [927; 931]%N.

Definition greek_product : Product :=
  mkProduct "id-0" omicron_sigma_alpha "osa" "A Greek title" 10 "Books" 2
            "2024-01-01T00:00:00.000Z" "2024-01-01T00:00:00.000Z".

(** ** The sample rows of the migration *)

(** The inch mark that ends two of the sample names. *)
Definition inch : string := String (ascii_of_nat 34) EmptyString.

(** The ten rows of the [INSERT] statement.  The table fills [id] with
    [gen_random_uuid()] and both timestamps with [now()]; they are taken
    here from [uuid] (by row number) and [ts]. *)
Definition sample_catalog (uuid : nat -> string) (ts : string) : list Product :=
  let row n nm sl d p c i := mkProduct (uuid n) nm sl d p c i ts ts in
  [ row 0%nat ("Laptop Pro 15" +:+ inch) "laptop-pro-15"
      "High-performance laptop with 16GB RAM and 512GB SSD" (129999 # 100) "Electronics" 12;
    row 1%nat "Wireless Mouse" "wireless-mouse"
      "Ergonomic wireless mouse with precision tracking" (2999 # 100) "Electronics" 45;
    row 2%nat "Mechanical Keyboard" "mechanical-keyboard"
      "RGB mechanical keyboard with blue switches" (8999 # 100) "Electronics" 23;
    row 3%nat "USB-C Hub" "usb-c-hub"
      "7-in-1 USB-C hub with HDMI and USB 3.0 ports" (4999 # 100) "Accessories" 8;
    row 4%nat "Laptop Stand" "laptop-stand"
      "Adjustable aluminum laptop stand" (3999 # 100) "Accessories" 3;
    row 5%nat "Noise Cancelling Headphones" "noise-cancelling-headphones"
      "Premium wireless headphones with active noise cancellation" (24999 # 100) "Audio" 18;
    row 6%nat "Portable SSD 1TB" "portable-ssd-1tb"
      "Fast external SSD with USB-C connectivity" (12999 # 100) "Storage" 2;
    row 7%nat "Webcam HD" "webcam-hd"
      "1080p HD webcam with auto-focus" (7999 # 100) "Electronics" 15;
    row 8%nat "Phone Stand" "phone-stand"
      "Adjustable phone stand for desk" (1999 # 100) "Accessories" 34;
    row 9%nat ("Monitor 27" +:+ inch) "monitor-27"
      "27-inch 4K monitor with IPS panel" (39999 # 100) "Electronics" 7 ].

(** ** The dashboard fold *)

(** The accumulator of the category count is the object literal [{}]: a
    fresh plain object whose prototype is [Object.prototype].  Reading
    [acc[k]] finds an own property first and an inherited one after that;
    writing [acc[k] = v] creates or replaces an own property, except for the
    key [__proto__], whose inherited setter drops every primitive value. *)
Module JsObject.

(** Primitive values the fold can store. *)
Inductive prim :=
| PNum (n : Z)
| PStr (s : string).

(** Values a read of [acc[k]] can produce. *)
Inductive value :=
| Prim (p : prim)
| Fun (fname : string)
| ObjectPrototype.

(** The function-valued properties every plain object inherits. *)
Definition inherited_methods : list string :=
  [ "hasOwnProperty"; "isPrototypeOf"; "propertyIsEnumerable";
    "toLocaleString"; "toString"; "valueOf";
    "__defineGetter__"; "__defineSetter__";
    "__lookupGetter__"; "__lookupSetter__" ].

(** A read of property [k] on [Object.prototype], as seen from a plain object. *)
Definition object_prototype (k : string) : option value :=
  if String.eqb k "constructor" then Some (Fun "Object")
  else if String.eqb k "__proto__" then Some ObjectPrototype
  else if bool_decide (k ∈ inherited_methods) then Some (Fun k)
  else None.

(** [acc[k]]; [None] is [undefined]. *)
Definition get (own : gmap string prim) (k : string) : option value :=
  match own !! k with
  | Some p => Some (Prim p)
  | None => object_prototype k
  end.

(** [acc[k] = p] for a primitive [p]. *)
Definition set (own : gmap string prim) (k : string) (p : prim) : gmap string prim :=
  if String.eqb k "__proto__" then own else <[k:=p]> own.

Definition truthy (v : value) : bool :=
  match v with
  | Prim (PNum n) => negb (n =? 0)
  | Prim (PStr s) => negb (String.eqb s EmptyString)
  | Fun _ => true
  | ObjectPrototype => true
  end.

(** [x || 0] *)
Definition or_zero (x : option value) : value :=
  match x with
  | Some v => if truthy v then v else Prim (PNum 0)
  | None => Prim (PNum 0)
  end.

(** The text a built-in function converts to. *)
Definition function_text (fname : string) : string :=
  "function " +:+ fname +:+ "() { [native code] }".

(** [v + 1]: numeric addition on a number, concatenation with ["1"] on
    anything that converts to a string. *)
Definition plus_one (v : value) : prim :=
  match v with
  | Prim (PNum n) => PNum (n + 1)
  | Prim (PStr s) => PStr (s +:+ "1")
  | Fun f => PStr (function_text f +:+ "1")
  | ObjectPrototype => PStr "[object Object]1"
  end.

End JsObject.

Record Dashboard := mkDashboard {
  d_products : list Product;
  totalProducts : nat;
  lowStockProducts : list Product;
  totalValue : Q;
  categories : gmap string JsObject.prim
}.

(** [Number(p.price)] on a value that is a number already. *)
Definition Number (q : Q) : Q := q.

(** [products.filter((p) => p.inventory < 5)] *)
Definition low_stock (products : list Product) : list Product :=
  List.filter (fun p => inventory p <? 5) products.

(** [products.reduce((sum, p) => sum + Number(p.price) * p.inventory, 0)] *)
Definition total_value (products : list Product) : Q :=
  fold_left (fun sum p => (sum + Number (price p) * inject_Z (inventory p))%Q)
            products 0%Q.

(** [products.reduce((acc, p) => { acc[p.category] = (acc[p.category] || 0) + 1;
    return acc; }, {})] *)
Definition count_step (acc : gmap string JsObject.prim) (p : Product)
  : gmap string JsObject.prim :=
  JsObject.set acc (category p)
    (JsObject.plus_one (JsObject.or_zero (JsObject.get acc (category p)))).

Definition count_categories (products : list Product) : gmap string JsObject.prim :=
  fold_left count_step products ∅.

(** The part of [getDashboardData] that follows the fetch. *)
Definition aggregate (products : list Product) : Dashboard :=
  {| d_products := products;
     totalProducts := length products;
     lowStockProducts := low_stock products;
     totalValue := total_value products;
     categories := count_categories products |}.

(** The number of products of a category. *)
Definition category_count (c : string) (products : list Product) : Z :=
  Z.of_nat (length (List.filter (fun p => String.eqb (category p) c) products)).

(** ** JSON values and request bodies *)

#[warnings="-register-all"]
Inductive Json :=
| JNull
| JBool (b : bool)
| JNum (q : Q)
| JStr (s : string)
| JArr (items : list Json)
| JObj (members : list (string * Json)).

(** Lookup in a parsed object; of two members with one key the later wins. *)
Fixpoint obj_get (members : list (string * Json)) (k : string) : option Json :=
  match members with
  | [] => None
  | (k', v) :: rest =>
      match obj_get rest k with
      | Some w => Some w
      | None => if String.eqb k' k then Some v else None
      end
  end.

(** Truthiness of a value read from a body; [None] is [undefined]. *)
Definition truthy (v : option Json) : bool :=
  match v with
  | None => false
  | Some JNull => false
  | Some (JBool b) => b
  | Some (JNum q) => negb (Qnum q =? 0)
  | Some (JStr s) => negb (String.eqb s EmptyString)
  | Some (JArr _) => true
  | Some (JObj _) => true
  end.

(** [v === undefined] *)
Definition is_undefined (v : option Json) : bool :=
  match v with None => true | Some _ => false end.

(** An object literal as it reaches the store: members whose value is
    [undefined] are left out by the serialisation. *)
Definition object_literal (members : list (string * option Json)) : gmap string Json :=
  fold_left
    (fun o kv => match kv.2 with Some v => <[kv.1 := v]> o | None => o end)
    members ∅.

(** ** The hosted table *)

(** How the table reads a JSON value into a column of each type ([None]:
    the value is refused), and the identifiers it generates.  The table is
    an external service: nothing is assumed about these functions. *)
Class Postgres := {
  text_in : Json -> option string;
  numeric_in : Json -> option Q;
  int4_in : Json -> option Z;
  uuid_in : Json -> option string;
  timestamptz_in : Json -> option string;
  gen_random_uuid : nat -> string
}.

(** The answer of the client library: [{ data, error }]. *)
Inductive PgResult (A : Type) :=
| PgData (data : A)
| PgError (message : string).
Arguments PgData {A} data.
Arguments PgError {A} message.

(** What a handler did to its environment, in order. *)
Inductive Event :=
| ReadBody
| StoreSelect
| StoreInsert (values : gmap string Json)
| StoreUpdate (values : gmap string Json) (key : string).

Record World := mkWorld {
  table : list Product;          (* the rows of [products], in storage order *)
  fault : option string;         (* the store refuses every call with this message *)
  db_now : string;               (* the table's [now()] *)
  serial : nat;                  (* identifiers generated so far *)
  log : list Event
}.

Definition record_event (e : Event) (w : World) : World :=
  {| table := table w; fault := fault w; db_now := db_now w;
     serial := serial w; log := log w ++ [e] |}.

Definition commit (rows : list Product) (w : World) : World :=
  {| table := rows; fault := fault w; db_now := db_now w;
     serial := serial w; log := log w |}.

Definition bump_serial (w : World) : World :=
  {| table := table w; fault := fault w; db_now := db_now w;
     serial := S (serial w); log := log w |}.

(** Column values read from a JSON object; [None] in a field: the column
    is not mentioned. *)
Record Patch := mkPatch {
  pa_id : option string;
  pa_name : option string;
  pa_slug : option string;
  pa_description : option string;
  pa_price : option Q;
  pa_category : option string;
  pa_inventory : option Z;
  pa_last_updated : option string;
  pa_created_at : option string
}.

Definition columns : list string :=
  [ "id"; "name"; "slug"; "description"; "price"; "category"; "inventory";
    "last_updated"; "created_at" ].

(** One column of a patch: absent, accepted or refused. *)
Definition read_column {A : Type} (conv : Json -> option A)
    (values : gmap string Json) (col : string) : option (option A) :=
  match values !! col with
  | None => Some None
  | Some j => match conv j with Some a => Some (Some a) | None => None end
  end.

(** Errors of the store, as message texts. *)
Definition err_input : string := "invalid input value".
Definition err_column : string := "column not found".
Definition err_not_null : string := "null value violates not-null constraint".
Definition err_unique : string := "duplicate key value violates unique constraint".
Definition err_single : string := "JSON object requested, multiple (or no) rows returned".

Section Store.
Context `{Postgres}.

Definition read_patch (values : gmap string Json) : PgResult Patch :=
  if negb (bool_decide (dom values ⊆ list_to_set columns)) then PgError err_column
  else
    match read_column uuid_in values "id",
          read_column text_in values "name",
          read_column text_in values "slug",
          read_column text_in values "description",
          read_column numeric_in values "price",
          read_column text_in values "category",
          read_column int4_in values "inventory",
          read_column timestamptz_in values "last_updated",
          read_column timestamptz_in values "created_at" with
    | Some i, Some n, Some s, Some d, Some p, Some c, Some v, Some l, Some k =>
        PgData (mkPatch i n s d p c v l k)
    | _, _, _, _, _, _, _, _, _ => PgError err_input
    end.

(** [UPDATE ... SET]: mentioned columns take the new value. *)
Definition apply_patch (pa : Patch) (r : Product) : Product :=
  {| id := default (id r) (pa_id pa);
     name := default (name r) (pa_name pa);
     slug := default (slug r) (pa_slug pa);
     description := default (description r) (pa_description pa);
     price := default (price r) (pa_price pa);
     category := default (category r) (pa_category pa);
     inventory := default (inventory r) (pa_inventory pa);
     last_updated := default (last_updated r) (pa_last_updated pa);
     created_at := default (created_at r) (pa_created_at pa) |}.

(** [INSERT]: columns not mentioned take the defaults of the migration;
    [name] and [slug] have none. *)
Definition new_row (pa : Patch) (w : World) : option Product :=
  match pa_name pa, pa_slug pa with
  | Some n, Some s =>
      Some {| id := default (gen_random_uuid (serial w)) (pa_id pa);
              name := n;
              slug := s;
              description := default EmptyString (pa_description pa);
              price := default 0%Q (pa_price pa);
              category := default "general" (pa_category pa);
              inventory := default 0 (pa_inventory pa);
              last_updated := default (db_now w) (pa_last_updated pa);
              created_at := default (db_now w) (pa_created_at pa) |}
  | _, _ => None
  end.

(** The primary key on [id] and the [UNIQUE] constraint on [slug]. *)
Definition keys_unique (rows : list Product) : bool :=
  bool_decide (NoDup (map id rows)) && bool_decide (NoDup (map slug rows)).

Definition has_slug (key : string) (r : Product) : bool := String.eqb (slug r) key.

End Store.

(** ** Queries of the table *)

(** [ORDER BY]: a stable insertion sort; [leb x y] says that [x] may stand
    before [y]. *)
Fixpoint insert_row (leb : Product -> Product -> bool) (x : Product)
    (l : list Product) : list Product :=
  match l with
  | [] => [x]
  | y :: l' => if leb x y then x :: y :: l' else y :: insert_row leb x l'
  end.

Definition order_by (leb : Product -> Product -> bool) (l : list Product) : list Product :=
  fold_right (insert_row leb) [] l.

(** [.order('price', { ascending: false })] *)
Definition price_descending (x y : Product) : bool := Qle_bool (price y) (price x).

(** [.order('inventory', { ascending: true })] *)
Definition inventory_ascending (x y : Product) : bool := inventory x <=? inventory y.

(** [.order('created_at', { ascending: false })]; timestamps of one format
    are compared as texts. *)
Definition created_at_descending (x y : Product) : bool :=
  match String.compare (created_at y) (created_at x) with
  | Gt => false
  | _ => true
  end.

(** [.limit(n)] *)
Definition limit (n : option nat) (l : list Product) : list Product :=
  match n with Some k => firstn k l | None => l end.

Section Queries.
Context `{Postgres}.

(** [.from('products').select('*')] with an optional filter, an order and
    an optional limit. *)
Definition select_rows (keep : Product -> bool) (leb : Product -> Product -> bool)
    (n : option nat) (w : World) : PgResult (list Product) * World :=
  let w := record_event StoreSelect w in
  match fault w with
  | Some m => (PgError m, w)
  | None => (PgData (limit n (order_by leb (List.filter keep (table w)))), w)
  end.

(** [.select('*').eq('slug', key).maybeSingle()]: no row is not an error. *)
Definition select_maybeSingle (key : string) (w : World)
  : PgResult (option Product) * World :=
  let w := record_event StoreSelect w in
  match fault w with
  | Some m => (PgError m, w)
  | None =>
      match List.filter (has_slug key) (table w) with
      | [] => (PgData None, w)
      | [r] => (PgData (Some r), w)
      | _ => (PgError err_single, w)
      end
  end.

(** [.insert([values]).select().single()] *)
Definition insert_single (values : gmap string Json) (w : World)
  : PgResult Product * World :=
  let w := record_event (StoreInsert values) w in
  match fault w with
  | Some m => (PgError m, w)
  | None =>
      match read_patch values with
      | PgError m => (PgError m, w)
      | PgData pa =>
          match new_row pa w with
          | None => (PgError err_not_null, w)
          | Some r =>
              if keys_unique (table w ++ [r])
              then (PgData r, bump_serial (commit (table w ++ [r]) w))
              else (PgError err_unique, w)
          end
      end
  end.

(** [.update(values).eq('slug', key).select().single()]: the statement
    stands only when exactly one row comes back. *)
Definition update_single (values : gmap string Json) (key : string) (w : World)
  : PgResult Product * World :=
  let w := record_event (StoreUpdate values key) w in
  match fault w with
  | Some m => (PgError m, w)
  | None =>
      match read_patch values with
      | PgError m => (PgError m, w)
      | PgData pa =>
          let rows := map (fun r => if has_slug key r then apply_patch pa r else r)
                          (table w) in
          if negb (keys_unique rows) then (PgError err_unique, w)
          else
            match map (apply_patch pa) (List.filter (has_slug key) (table w)) with
            | [r] => (PgData r, commit rows w)
            | _ => (PgError err_single, w)
            end
      end
  end.

(** *** The pages *)

(** [getRecommendedProducts] of [app/recommendations/page.tsx] *)
Definition getRecommendedProducts (w : World) : list Product * World :=
  match select_rows (fun p => 10 <=? inventory p) price_descending (Some 6%nat) w with
  | (PgError _, w') => ([], w')
  | (PgData products, w') => (products, w')
  end.

(** [getDashboardData] of the dashboard page *)
Definition getDashboardData (w : World) : Dashboard * World :=
  match select_rows (fun _ => true) inventory_ascending None w with
  | (PgError _, w') =>
      ({| d_products := []; totalProducts := 0; lowStockProducts := [];
          totalValue := 0%Q; categories := ∅ |}, w')
  | (PgData products, w') => (aggregate products, w')
  end.

End Queries.

(** ** Route handlers *)

Record Request := mkRequest {
  x_admin_key : option string;   (* [headers.get('x-admin-key')]; [None] is [null] *)
  body : option Json             (* the parsed body; [None]: [request.json()] rejects *)
}.

Record Env := mkEnv {
  ADMIN_KEY : option string;     (* [process.env.ADMIN_KEY]; [None] is [undefined] *)
  now : string                   (* [new Date().toISOString()] *)
}.

Inductive Payload :=
| ErrorJson (error : string)
| ProductJson (product : Product)
| ProductsJson (products : list Product).

Record Response := mkResponse {
  payload : Payload;
  status : Z
}.

(** [NextResponse.json(payload, { status })]; the status defaults to 200. *)
Definition NextResponse_json (p : Payload) (init : option Z) : Response :=
  {| payload := p; status := default 200 init |}.

(** [a !== b] between a header ([null] when absent) and an environment
    variable ([undefined] when unset): [null] and [undefined] differ. *)
Definition strict_neq (a b : option string) : bool :=
  match a, b with
  | Some x, Some y => negb (String.eqb x y)
  | _, _ => true
  end.

(** A handler body: it changes the world and returns or throws. *)
Inductive Outcome (A : Type) :=
| Returned (a : A)
| Thrown.
Arguments Returned {A} a.
Arguments Thrown {A}.

Definition Handler (A : Type) : Type := World -> Outcome A * World.

#[export] Instance handler_ret : MRet Handler :=
  fun A a w => (Returned a, w).

#[export] Instance handler_bind : MBind Handler :=
  fun A B f m w =>
    match m w with
    | (Returned a, w') => f a w'
    | (Thrown, w') => (Thrown, w')
    end.

(** [await] of a store call, which answers with [{ data, error }] and
    does not throw. *)
Definition await {A : Type} (call : World -> A * World) : Handler A :=
  fun w => let (a, w') := call w in (Returned a, w').

(** [try { ... } catch (error) { return fallback }] *)
Definition try_catch (m : Handler Response) (fallback : Response)
  : World -> Response * World :=
  fun w =>
    match m w with
    | (Returned r, w') => (r, w')
    | (Thrown, w') => (fallback, w')
    end.

(** [await request.json()] *)
Definition request_json (request : Request) : Handler Json :=
  fun w =>
    let w := record_event ReadBody w in
    match body request with
    | Some j => (Returned j, w)
    | None => (Thrown, w)
    end.

(** A property of a parsed body that is not [null]: an object gives its
    member or [undefined]; arrays, strings, numbers and booleans have none
    of the names the handlers ask for. *)
Definition member (b : Json) (k : string) : option Json :=
  match b with
  | JObj members => obj_get members k
  | _ => None
  end.

(** One name of [const { ... } = body]; destructuring [null] throws. *)
Definition field (b : Json) (k : string) : Handler (option Json) :=
  match b with
  | JNull => fun w => (Thrown, w)
  | _ => mret (member b k)
  end.

(** [if (v !== undefined) updateData[k] = v] *)
Definition assign_defined (k : string) (v : option Json) (o : gmap string Json)
  : gmap string Json :=
  match v with
  | Some j => <[k := j]> o
  | None => o
  end.

Section Routes.
Context `{Postgres}.
Variable env : Env.

Definition unauthorized : Response :=
  NextResponse_json (ErrorJson "Unauthorized: Invalid admin key") (Some 401).

(** [GET /api/products] *)
Definition GET_products : World -> Response * World :=
  try_catch
    (r ← await (select_rows (fun _ => true) created_at_descending None);
     match r with
     | PgError m => mret (NextResponse_json (ErrorJson m) (Some 500))
     | PgData products => mret (NextResponse_json (ProductsJson products) None)
     end)
    (NextResponse_json (ErrorJson "Failed to fetch products") (Some 500)).

(** [POST /api/products] *)
Definition POST (request : Request) : World -> Response * World :=
  try_catch
    (let adminKey := x_admin_key request in
     if strict_neq adminKey (ADMIN_KEY env) then mret unauthorized
     else
       body ← request_json request;
       name ← field body "name";
       slug ← field body "slug";
       description ← field body "description";
       price ← field body "price";
       category ← field body "category";
       inventory ← field body "inventory";
       if negb (truthy name) || negb (truthy slug) || negb (truthy description)
          || is_undefined price || negb (truthy category) || is_undefined inventory
       then mret (NextResponse_json (ErrorJson "Missing required fields") (Some 400))
       else
         r ← await (insert_single
                      (object_literal
                         [ ("name", name); ("slug", slug);
                           ("description", description); ("price", price);
                           ("category", category); ("inventory", inventory);
                           ("last_updated", Some (JStr (now env))) ]));
         match r with
         | PgError m => mret (NextResponse_json (ErrorJson m) (Some 500))
         | PgData product => mret (NextResponse_json (ProductJson product) (Some 201))
         end)
    (NextResponse_json (ErrorJson "Failed to create product") (Some 500)).

(** [GET /api/products/[slug]] *)
Definition GET (params_slug : string) : World -> Response * World :=
  try_catch
    (r ← await (select_maybeSingle params_slug);
     match r with
     | PgError m => mret (NextResponse_json (ErrorJson m) (Some 500))
     | PgData None => mret (NextResponse_json (ErrorJson "Product not found") (Some 404))
     | PgData (Some product) => mret (NextResponse_json (ProductJson product) None)
     end)
    (NextResponse_json (ErrorJson "Failed to fetch product") (Some 500)).

(** The object [updateData] that [PUT] builds from the body. *)
Definition updateData_of (name description price category inventory : option Json)
  : gmap string Json :=
  let updateData : gmap string Json := {[ "last_updated" := JStr (now env) ]} in
  let updateData := assign_defined "name" name updateData in
  let updateData := assign_defined "description" description updateData in
  let updateData := assign_defined "price" price updateData in
  let updateData := assign_defined "category" category updateData in
  let updateData := assign_defined "inventory" inventory updateData in
  updateData.

(** [PUT /api/products/[slug]] *)
Definition PUT (request : Request) (params_slug : string) : World -> Response * World :=
  try_catch
    (let adminKey := x_admin_key request in
     if strict_neq adminKey (ADMIN_KEY env) then mret unauthorized
     else
       body ← request_json request;
       name ← field body "name";
       description ← field body "description";
       price ← field body "price";
       category ← field body "category";
       inventory ← field body "inventory";
       r ← await (update_single
                    (updateData_of name description price category inventory)
                    params_slug);
       match r with
       | PgError m => mret (NextResponse_json (ErrorJson m) (Some 500))
       | PgData product => mret (NextResponse_json (ProductJson product) None)
       end)
    (NextResponse_json (ErrorJson "Failed to update product") (Some 500)).

End Routes.

(** ** Reference notions used by the statements *)

(** A request is authorised when the header carries the configured secret. *)
Definition authorised (env : Env) (request : Request) : Prop :=
  exists secret : string,
    x_admin_key request = Some secret /\ ADMIN_KEY env = Some secret.

(** The six fields a create request needs. *)
Definition required_fields : list string :=
  [ "name"; "slug"; "description"; "price"; "category"; "inventory" ].

(** The five fields an update request may change. *)
Definition updatable_fields : list string :=
  [ "name"; "description"; "price"; "category"; "inventory" ].

(** Some required field is absent from the body. *)
Definition missing_required (b : Json) : Prop :=
  exists k : string, k ∈ required_fields /\ member b k = None.

(** What [POST] refuses: a text field that is absent or falsy, or a
    numeric field that is absent. *)
Definition refused_by_create (b : Json) : Prop :=
  truthy (member b "name") = false \/
  truthy (member b "slug") = false \/
  truthy (member b "description") = false \/
  member b "price" = None \/
  truthy (member b "category") = false \/
  member b "inventory" = None.

(** The values [POST] sends to the table for a body [b]. *)
Definition create_values (env : Env) (b : Json) : gmap string Json :=
  object_literal
    [ ("name", member b "name"); ("slug", member b "slug");
      ("description", member b "description"); ("price", member b "price");
      ("category", member b "category"); ("inventory", member b "inventory");
      ("last_updated", Some (JStr (now env))) ].

(** The values [PUT] sends to the table for a body [b]. *)
Definition update_values (env : Env) (b : Json) : gmap string Json :=
  updateData_of env (member b "name") (member b "description") (member b "price")
    (member b "category") (member b "inventory").

(** The test of [POST], on the members of a body. *)
Definition validation_fails (b : Json) : bool :=
  negb (truthy (member b "name")) || negb (truthy (member b "slug"))
  || negb (truthy (member b "description")) || is_undefined (member b "price")
  || negb (truthy (member b "category")) || is_undefined (member b "inventory").

(** A field after an update, against the request and the prior value: a
    supplied field holds what the table read from the supplied value, an
    omitted field holds what it held. *)
Definition supplied_or_kept {A : Type} (conv : Json -> option A)
    (supplied : option Json) (prior current : A) : Prop :=
  match supplied with
  | Some j => conv j = Some current
  | None => current = prior
  end.

(** The table can read a supplied value into its column. *)
Definition readable {A : Type} (conv : Json -> option A) (supplied : option Json) : Prop :=
  match supplied with
  | Some j => is_Some (conv j)
  | None => True
  end.

(** The table can read every value an update request supplies, and the
    time stamp the handler adds. *)
Definition update_readable `{Postgres} (env : Env) (b : Json) : Prop :=
  readable text_in (member b "name") /\
  readable text_in (member b "description") /\
  readable numeric_in (member b "price") /\
  readable text_in (member b "category") /\
  readable int4_in (member b "inventory") /\
  readable timestamptz_in (Some (JStr (now env))).

(** Prices never rise along the list. *)
Definition price_not_rising (x y : Product) : Prop := (price y <= price x)%Q.

(** ** A concrete table for the examples *)

(** A table that takes a text for a text, a number for a number and a
    whole number for an integer, and refuses everything else. *)
Definition strict_table : Postgres :=
  {| text_in := fun j => match j with JStr s => Some s | _ => None end;
     numeric_in := fun j => match j with JNum q => Some q | _ => None end;
     int4_in := fun j =>
       match j with
       | JNum q => if (Qden q =? 1)%positive then Some (Qnum q) else None
       | _ => None
       end;
     uuid_in := fun j => match j with JStr s => Some s | _ => None end;
     timestamptz_in := fun j => match j with JStr s => Some s | _ => None end;
     gen_random_uuid := fun n => "id-" +:+ pretty n |}.

Definition example_env : Env :=
  {| ADMIN_KEY := Some "admin123"; now := "2024-05-01T10:00:00.000Z" |}.

Definition example_world : World :=
  {| table := sample_catalog (fun n => "id-" +:+ pretty n) "2024-01-01T00:00:00.000Z";
     fault := None;
     db_now := "2024-05-01T10:00:00.000Z";
     serial := 10;
     log := [] |}.

(** A product of a given category: price 10, two in stock. *)
Definition gadget (c : string) : Product :=
  mkProduct "id-0" "Gadget" "gadget" "A gadget" 10 c 2
            "2024-01-01T00:00:00.000Z" "2024-01-01T00:00:00.000Z".
(** The fourth sample row as [example_world] holds it. *)
Definition usb_c_hub : Product :=
  mkProduct "id-3" "USB-C Hub" "usb-c-hub"
    "7-in-1 USB-C hub with HDMI and USB 3.0 ports" (4999 # 100) "Accessories" 8
    "2024-01-01T00:00:00.000Z" "2024-01-01T00:00:00.000Z".

(** A request with a wrong key and a body that does not parse. *)
Definition wrong_key_request : Request :=
  {| x_admin_key := Some "letmein"; body := None |}.

(** An update that renames a product, sets its price, and carries a slug. *)
Definition rename_body : Json :=
  JObj [ ("name", JStr "USB-C Dock"); ("slug", JStr "usb-c-dock"); ("price", JNum 59) ].

Definition rename_request : Request :=
  {| x_admin_key := Some "admin123"; body := Some rename_body |}.

(** A create request with all six fields present and an empty name. *)
Definition empty_name_body : Json :=
  JObj [ ("name", JStr EmptyString); ("slug", JStr "cable");
         ("description", JStr "A cable"); ("price", JNum 4);
         ("category", JStr "Accessories"); ("inventory", JNum 30) ].

Definition empty_name_request : Request :=
  {| x_admin_key := Some "admin123"; body := Some empty_name_body |}.

(** A create request with price zero and inventory [null]. *)
Definition zero_price_body : Json :=
  JObj [ ("name", JStr "Sticker"); ("slug", JStr "sticker");
         ("description", JStr "A sticker"); ("price", JNum 0);
         ("category", JStr "Accessories"); ("inventory", JNull) ].

Definition zero_price_request : Request :=
  {| x_admin_key := Some "admin123"; body := Some zero_price_body |}.

(** ** More of the pages and components *)

Section Pages.
Context `{Postgres}.

(** [getProducts] of the home page *)
Definition getProducts (w : World) : list Product * World :=
  match select_rows (fun _ => true) created_at_descending None w with
  | (PgError _, w') => ([], w')
  | (PgData products, w') => (products, w')
  end.

(** [getProduct] of the product page: a store error is logged and
    answered like a missing row. *)
Definition getProduct (slug : string) (w : World) : option Product * World :=
  match select_maybeSingle slug w with
  | (PgError _, w') => (None, w')
  | (PgData product, w') => (product, w')
  end.

(** [.from('products').select('slug')]: one column of every row, in
    storage order. *)
Definition select_slugs (w : World) : PgResult (list string) * World :=
  let w := record_event StoreSelect w in
  match fault w with
  | Some m => (PgError m, w)
  | None => (PgData (map slug (table w)), w)
  end.

(** [generateStaticParams] of the product page; the error of the answer
    is not looked at, [products || []] covers the missing data. *)
Definition generateStaticParams (w : World) : list string * World :=
  match select_slugs w with
  | (PgError _, w') => ([], w')
  | (PgData slugs, w') => (slugs, w')
  end.

(** What [ProductPage] renders: [notFound()] or the product. *)
Inductive Rendered :=
| NotFoundPage
| ProductView (product : Product).

Definition ProductPage (params_slug : string) (w : World) : Rendered * World :=
  match getProduct params_slug w with
  | (None, w') => (NotFoundPage, w')
  | (Some product, w') => (ProductView product, w')
  end.

End Pages.

(** [Array.from(new Set(l))]: the distinct members, in order of first
    occurrence. *)
Definition Set_from (l : list string) : list string :=
  fold_left (fun (seen : list string) (c : string) =>
               if bool_decide (c ∈ seen) then seen else (seen ++ [c])%list)
            l [].

(** The options of the category selector of [ProductList]. *)
Definition category_options (products : list Product) : list string :=
  "all" :: Set_from (map category products).

(** The colour of the stock badge. *)
Inductive Badge := Red | Yellow | Green.

(** The badge of a card of [ProductList]. *)
Definition list_badge (product : Product) : Badge :=
  if inventory product <? 5 then Red
  else if inventory product <? 10 then Yellow
  else Green.

(** The badge of a row of the admin table. *)
Definition admin_badge (product : Product) : Badge :=
  if inventory product <? 5 then Red else Green.

(** A body member that is present and that the table reads as [a]. *)
Definition read_as {A : Type} (conv : Json -> option A) (supplied : option Json) (a : A)
  : Prop :=
  exists j, supplied = Some j /\ conv j = Some a.

(** The counts held by a category object, added up. *)
Definition sum_counts (m : gmap string JsObject.prim) : Z :=
  map_fold (fun _ v acc => match v with JsObject.PNum n => acc + n | JsObject.PStr _ => acc end)
           0 m.

(** Inventories never fall along the list. *)
Definition inventory_not_falling (x y : Product) : Prop := inventory x <= inventory y.

(** A create request the strict table accepts, and the row it makes in
    [example_world]. *)
Definition cable_body : Json :=
  JObj [ ("name", JStr "Cable"); ("slug", JStr "cable");
         ("description", JStr "A cable"); ("price", JNum 4);
         ("category", JStr "Accessories"); ("inventory", JNum 30) ].

Definition cable_request : Request :=
  {| x_admin_key := Some "admin123"; body := Some cable_body |}.

Definition cable : Product :=
  mkProduct "id-10" "Cable" "cable" "A cable" 4 "Accessories" 30
    "2024-05-01T10:00:00.000Z" "2024-05-01T10:00:00.000Z".

(** A create request for a slug the sample table holds already. *)
Definition second_mouse_body : Json :=
  JObj [ ("name", JStr "Another Mouse"); ("slug", JStr "wireless-mouse");
         ("description", JStr "A second mouse"); ("price", JNum 9);
         ("category", JStr "Electronics"); ("inventory", JNum 1) ].

Definition second_mouse_request : Request :=
  {| x_admin_key := Some "admin123"; body := Some second_mouse_body |}.

(** The USB-C hub after [rename_request]. *)
Definition usb_c_dock : Product :=
  mkProduct "id-3" "USB-C Dock" "usb-c-hub"
    "7-in-1 USB-C hub with HDMI and USB 3.0 ports" 59 "Accessories" 8
    "2024-05-01T10:00:00.000Z" "2024-01-01T00:00:00.000Z".

(** ** The admin page *)

(** Built-ins of the browser the page calls: [parseFloat] and [parseInt]
    ([None]: the result is [NaN] or not finite), and [toString] on the two
    numeric fields.  Nothing is assumed about them. *)
Class Browser := {
  parseFloat : string -> option Q;
  parseInt : string -> option Z;
  price_toString : Q -> string;
  inventory_toString : Z -> string
}.

(** The texts of the form. *)
Record FormData := mkFormData {
  f_name : string;
  f_slug : string;
  f_description : string;
  f_price : string;
  f_category : string;
  f_inventory : string
}.

Definition empty_form : FormData :=
  mkFormData EmptyString EmptyString EmptyString EmptyString EmptyString EmptyString.

(** The state hooks of [AdminPage]. *)
Record AdminState := mkAdminState {
  a_products : list Product;
  loading : bool;
  adminKey : string;
  isAuthenticated : bool;
  showForm : bool;
  editingProduct : option Product;
  formData : FormData;
  formMessage : string
}.

Definition initial_admin : AdminState :=
  {| a_products := []; loading := true; adminKey := EmptyString;
     isAuthenticated := false; showForm := false; editingProduct := None;
     formData := empty_form; formMessage := EmptyString |}.

(** What can happen to the page: the user acts on a control that is
    rendered and enabled, or a pending [fetch] settles. *)
Inductive AdminEvent :=
| TypeAdminKey (text : string)
| SubmitLogin
| Logout
| ToggleForm
| TypeName (text : string)
| TypeSlug (text : string)
| TypeDescription (text : string)
| TypePrice (text : string)
| TypeCategory (text : string)
| TypeInventory (text : string)
| SubmitForm
| Cancel
| Edit (row : nat)
| Saved (wasEditing : bool)
| SaveFailed (message : string)
| Fetched (data : list Product)
| FetchFailed.

Definition with_form (s : AdminState) (f : FormData) : AdminState :=
  {| a_products := a_products s; loading := loading s; adminKey := adminKey s;
     isAuthenticated := isAuthenticated s; showForm := showForm s;
     editingProduct := editingProduct s; formData := f;
     formMessage := formMessage s |}.

Definition with_message (s : AdminState) (m : string) : AdminState :=
  {| a_products := a_products s; loading := loading s; adminKey := adminKey s;
     isAuthenticated := isAuthenticated s; showForm := showForm s;
     editingProduct := editingProduct s; formData := formData s;
     formMessage := m |}.

Section AdminPage.
Context `{Browser}.

(** [handleLogin]; the effect on [isAuthenticated] then starts
    [fetchProducts], which sets [loading]. *)
Definition handleLogin (s : AdminState) : AdminState :=
  if String.eqb (adminKey s) "admin123"
  then {| a_products := a_products s; loading := true; adminKey := adminKey s;
          isAuthenticated := true; showForm := showForm s;
          editingProduct := editingProduct s; formData := formData s;
          formMessage := formMessage s |}
  else s.

(** [handleEdit] *)
Definition handleEdit (product : Product) (s : AdminState) : AdminState :=
  {| a_products := a_products s; loading := loading s; adminKey := adminKey s;
     isAuthenticated := isAuthenticated s; showForm := true;
     editingProduct := Some product;
     formData := {| f_name := name product; f_slug := slug product;
                    f_description := description product;
                    f_price := price_toString (price product);
                    f_category := category product;
                    f_inventory := inventory_toString (inventory product) |};
     formMessage := formMessage s |}.

(** [handleCancel] *)
Definition handleCancel (s : AdminState) : AdminState :=
  {| a_products := a_products s; loading := loading s; adminKey := adminKey s;
     isAuthenticated := isAuthenticated s; showForm := false;
     editingProduct := None; formData := empty_form;
     formMessage := EmptyString |}.

(** [handleSubmit] after a response that is [ok]; [fetchProducts] starts. *)
Definition submit_succeeded (wasEditing : bool) (s : AdminState) : AdminState :=
  {| a_products := a_products s; loading := true; adminKey := adminKey s;
     isAuthenticated := isAuthenticated s; showForm := false;
     editingProduct := None; formData := empty_form;
     formMessage := if wasEditing then "Product updated successfully!"
                    else "Product created successfully!" |}.

(** [error.message || 'Error saving product'] *)
Definition submit_failed (message : string) (s : AdminState) : AdminState :=
  with_message s (if String.eqb message EmptyString then "Error saving product"
                  else message).

(** A number as [JSON.stringify] writes it and [request.json()] reads it
    back: [NaN] becomes [null]. *)
Definition number_json (n : option Q) : Json :=
  match n with
  | Some q => JNum q
  | None => JNull
  end.

(** The body [handleSubmit] sends, as the route parses it. *)
Definition submit_body (f : FormData) : Json :=
  JObj [ ("name", JStr (f_name f)); ("slug", JStr (f_slug f));
         ("description", JStr (f_description f));
         ("price", number_json (parseFloat (f_price f)));
         ("category", JStr (f_category f));
         ("inventory", number_json (inject_Z <$> parseInt (f_inventory f))) ].

(** The [fetch] of [handleSubmit]: the method, the last segment of the
    path for a [PUT], and the request. *)
Inductive ApiCall :=
| CallPOST (request : Request)
| CallPUT (path_slug : string) (request : Request).

Definition submit_call (s : AdminState) : ApiCall :=
  let request := {| x_admin_key := Some (adminKey s);
                    body := Some (submit_body (formData s)) |} in
  match editingProduct s with
  | Some product => CallPUT (slug product) request
  | None => CallPOST request
  end.

(** One event on the page; [None]: the control is not rendered or is
    disabled in this state.  Each handler runs on the state of the latest
    render. *)
Definition admin_step (s : AdminState) (e : AdminEvent) : option AdminState :=
  let form_open := isAuthenticated s && showForm s in
  let typing (f : FormData) := if form_open then Some (with_form s f) else None in
  let f := formData s in
  match e with
  | TypeAdminKey text =>
      if isAuthenticated s then None
      else Some {| a_products := a_products s; loading := loading s; adminKey := text;
                   isAuthenticated := isAuthenticated s; showForm := showForm s;
                   editingProduct := editingProduct s; formData := formData s;
                   formMessage := formMessage s |}
  | SubmitLogin => if isAuthenticated s then None else Some (handleLogin s)
  | Logout =>
      if isAuthenticated s
      then Some {| a_products := a_products s; loading := loading s;
                   adminKey := adminKey s; isAuthenticated := false;
                   showForm := showForm s; editingProduct := editingProduct s;
                   formData := formData s; formMessage := formMessage s |}
      else None
  | ToggleForm =>
      if isAuthenticated s
      then Some {| a_products := a_products s; loading := loading s;
                   adminKey := adminKey s; isAuthenticated := isAuthenticated s;
                   showForm := negb (showForm s); editingProduct := editingProduct s;
                   formData := formData s; formMessage := formMessage s |}
      else None
  | TypeName text =>
      typing (mkFormData text (f_slug f) (f_description f) (f_price f)
                (f_category f) (f_inventory f))
  | TypeSlug text =>
      match editingProduct s with
      | Some _ => None
      | None => typing (mkFormData (f_name f) text (f_description f) (f_price f)
                          (f_category f) (f_inventory f))
      end
  | TypeDescription text =>
      typing (mkFormData (f_name f) (f_slug f) text (f_price f)
                (f_category f) (f_inventory f))
  | TypePrice text =>
      typing (mkFormData (f_name f) (f_slug f) (f_description f) text
                (f_category f) (f_inventory f))
  | TypeCategory text =>
      typing (mkFormData (f_name f) (f_slug f) (f_description f) (f_price f)
                text (f_inventory f))
  | TypeInventory text =>
      typing (mkFormData (f_name f) (f_slug f) (f_description f) (f_price f)
                (f_category f) text)
  | SubmitForm => if form_open then Some (with_message s EmptyString) else None
  | Cancel => if form_open then Some (handleCancel s) else None
  | Edit row =>
      if isAuthenticated s && negb (loading s)
      then match a_products s !! row with
           | Some product => Some (handleEdit product s)
           | None => None
           end
      else None
  | Saved wasEditing => Some (submit_succeeded wasEditing s)
  | SaveFailed message => Some (submit_failed message s)
  | Fetched data =>
      Some {| a_products := data; loading := false; adminKey := adminKey s;
              isAuthenticated := isAuthenticated s; showForm := showForm s;
              editingProduct := editingProduct s; formData := formData s;
              formMessage := formMessage s |}
  | FetchFailed =>
      Some {| a_products := a_products s; loading := false; adminKey := adminKey s;
              isAuthenticated := isAuthenticated s; showForm := showForm s;
              editingProduct := editingProduct s; formData := formData s;
              formMessage := formMessage s |}
  end.

(** The states the page can be in. *)
Inductive admin_reachable : AdminState -> Prop :=
| reachable_initial : admin_reachable initial_admin
| reachable_step (s s' : AdminState) (e : AdminEvent) :
    admin_reachable s -> admin_step s e = Some s' -> admin_reachable s'.

End AdminPage.

(** What holds in every state of the page. *)
Definition admin_invariant (s : AdminState) : Prop :=
  (isAuthenticated s = true -> adminKey s = "admin123") /\
  (forall p, editingProduct s = Some p -> f_slug (formData s) = slug p).


(** A browser for the examples: its parsers find no number in any text. *)
Definition blank_browser : Browser :=
  {| parseFloat := fun _ => None;
     parseInt := fun _ => None;
     price_toString := fun _ => EmptyString;
     inventory_toString := fun _ => EmptyString |}.

(** The admin page after typing the key, logging in and opening the form. *)
Definition admin_form_open : AdminState :=
  {| a_products := []; loading := true; adminKey := "admin123";
     isAuthenticated := true; showForm := true; editingProduct := None;
     formData := empty_form; formMessage := EmptyString |}.

(** * Properties *)

(** ** The client-side filter *)

Lemma append_cons (a : ascii) (s t : string) :
  String a s +:+ t = String a (s +:+ t).
Proof. reflexivity. Qed.

Lemma startsWith_spec (s t : string) :
  Js.startsWith s t = true <-> exists suf, s = t +:+ suf.
Proof.
  revert s. induction t as [|b t IH]; intros s; simpl.
  - split; [intros _; by exists s | done].
  - destruct s as [|a s]; simpl.
    + split; [done | intros [suf Hs]; discriminate].
    + setoid_rewrite append_cons.
      destruct (Ascii.eqb_spec a b) as [->|Hne].
      * rewrite IH. split; intros [suf Hs]; exists suf; congruence.
      * split; [done | intros [suf Hs]; congruence].
Qed.

Lemma includes_spec (s t : string) :
  Js.includes s t = true <-> exists pre suf, s = pre +:+ t +:+ suf.
Proof.
  induction s as [|a s IH]; simpl.
  - rewrite orb_false_r, startsWith_spec. split.
    + intros [suf Hs]. by exists EmptyString, suf.
    + intros [pre [suf Hs]]. destruct pre; [by exists suf | discriminate].
  - rewrite orb_true_iff, startsWith_spec, IH. split.
    + intros [[suf Hs] | [pre [suf Hs]]].
      * by exists EmptyString, suf.
      * exists (String a pre), suf. rewrite append_cons. by rewrite Hs.
    + intros [pre [suf Hs]]. destruct pre as [|c pre].
      * left. by exists suf.
      * right. exists pre, suf. rewrite append_cons in Hs. congruence.
Qed.


Lemma matchesCategory_spec (sel : string) (p : Product) :
  matchesCategory sel p = true <-> sel = "all" \/ category p = sel.
Proof.
  unfold matchesCategory.
  rewrite orb_true_iff, !String.eqb_eq. done.
Qed.

(** *** Basic Latin text *)

Lemma lower_basic_latin_app (s t : string) :
  Js.lower_basic_latin (s +:+ t) = Js.lower_basic_latin s +:+ Js.lower_basic_latin t.
Proof.
  induction s as [|a s IH]; [reflexivity|].
  rewrite append_cons. simpl. rewrite append_cons. by rewrite IH.
Qed.

Lemma basic_latin_app (s t : string) :
  Js.basic_latin (s +:+ t) = Js.basic_latin s && Js.basic_latin t.
Proof.
  induction s as [|a s IH]; [reflexivity|].
  rewrite append_cons. simpl. rewrite IH. by rewrite andb_assoc.
Qed.







(** The search on a text of Greek capital letters, under every engine. *)
Lemma final_sigma_search `{Js.Runtime} :
  filteredProducts [greek_product] omicron_sigma "all" = [] /\
  filteredProducts [greek_product] omicron_sigma_alpha "all" = [greek_product].
Proof.
  unfold filteredProducts, matchesSearch. cbn [List.filter name greek_product].
  rewrite (Js.toLowerCase_greek_capitals omicron_sigma_alpha [927; 931; 913]%N)
    by reflexivity.
  rewrite (Js.toLowerCase_greek_capitals omicron_sigma [927; 931]%N) by reflexivity.
  split; reflexivity.
Qed.


(** ** The dashboard fold *)

(** The sum is accumulated from left to right. *)
Lemma total_value_snoc (products : list Product) (p : Product) :
  total_value (products ++ [p]) =
  (total_value products + Number (price p) * inject_Z (inventory p))%Q.
Proof. unfold total_value. by rewrite fold_left_app. Qed.

Lemma low_stock_spec (products : list Product) (p : Product) :
  In p (low_stock products) <-> In p products /\ inventory p < 5.
Proof. unfold low_stock. by rewrite filter_In, Z.ltb_lt. Qed.

Lemma category_count_snoc (c : string) (products : list Product) (p : Product) :
  category_count c (products ++ [p]) =
  category_count c products + (if String.eqb (category p) c then 1 else 0).
Proof.
  unfold category_count. rewrite List.filter_app, length_app. simpl.
  destruct (String.eqb (category p) c); simpl; lia.
Qed.

(** A category that names nothing inherited is counted: the object holds
    the number of products of the category, and no entry when there is none. *)
Lemma count_categories_spec (products : list Product) :
  Forall (fun p => JsObject.object_prototype (category p) = None) products ->
  forall c : string,
    count_categories products !! c =
    if category_count c products =? 0 then None
    else Some (JsObject.PNum (category_count c products)).
Proof.
  induction products as [|p l IH] using rev_ind; intros Hall c.
  - reflexivity.
  - apply Forall_app in Hall as [Hl Hp]. apply Forall_cons_1 in Hp as [Hp _].
    specialize (IH Hl).
    assert (Hnn : forall d, 0 <= category_count d l)
      by (intros d; unfold category_count; lia).
    unfold count_categories in *. rewrite fold_left_app. simpl.
    rewrite category_count_snoc.
    unfold count_step at 1. unfold JsObject.set, JsObject.get.
    assert (Hproto : String.eqb (category p) "__proto__" = false).
    { apply String.eqb_neq. intros E. rewrite E in Hp. discriminate. }
    rewrite Hproto, (IH (category p)), Hp.
    destruct (String.eqb_spec (category p) c) as [->|Hne].
    + rewrite lookup_insert_eq. specialize (Hnn c).
      destruct (Z.eqb_spec (category_count c l) 0) as [E|E].
      * rewrite E. reflexivity.
      * simpl. destruct (Z.eqb_spec (category_count c l) 0); [done|].
        simpl. destruct (Z.eqb_spec (category_count c l + 1) 0); [lia | done].
    + rewrite lookup_insert_ne by done. rewrite Z.add_0_r. apply IH.
Qed.

(** What [aggregate] gets right on every list: the count, the low-stock
    subset, the accumulated value, and the category counts as long as no
    category names a property every object inherits. *)
Lemma aggregate_spec (products : list Product) :
  totalProducts (aggregate products) = length products /\
  (forall p, In p (lowStockProducts (aggregate products)) <->
             In p products /\ inventory p < 5) /\
  totalValue (aggregate []) = 0%Q /\
  (forall p, totalValue (aggregate (products ++ [p])) =
             (totalValue (aggregate products)
              + Number (price p) * inject_Z (inventory p))%Q) /\
  (Forall (fun p => JsObject.object_prototype (category p) = None) products ->
   forall c, categories (aggregate products) !! c =
             if category_count c products =? 0 then None
             else Some (JsObject.PNum (category_count c products))).
Proof.
  split; [reflexivity|].
  split; [intros p; apply low_stock_spec|].
  split; [reflexivity|].
  split; [intros p; apply total_value_snoc|].
  apply count_categories_spec.
Qed.

(** The two figures of the specification. *)
Lemma aggregate_examples :
  totalValue (aggregate [ mkProduct "a" "A" "a" "" 10 "x" 2 "" "";
                          mkProduct "b" "B" "b" "" 5 "x" 1 "" "" ]) = 25%Q /\
  totalValue (aggregate []) = 0%Q /\
  categories (aggregate []) = ∅.
Proof. split; [|split]; reflexivity. Qed.

(** C1.  [aggregate] miscounts a category whose name is a property every
    object inherits.  One product of the category "constructor" should give
    the count 1; the entry is a text instead.  One product of the category
    "__proto__" leaves the map of categories empty.  The count, the
    low-stock subset and the value of the same lists are as specified. *)
Theorem aggregate_inherited_category :
  category_count "constructor" [gadget "constructor"] = 1 /\
  categories (aggregate [gadget "constructor"]) !! "constructor" =
    Some (JsObject.PStr "function Object() { [native code] }1") /\
  category_count "__proto__" [gadget "__proto__"] = 1 /\
  categories (aggregate [gadget "__proto__"]) = ∅ /\
  totalProducts (aggregate [gadget "constructor"]) = 1%nat /\
  lowStockProducts (aggregate [gadget "constructor"]) = [gadget "constructor"] /\
  totalValue (aggregate [gadget "constructor"]) = 20%Q.
Proof. repeat (split; [vm_compute; reflexivity|]). vm_compute; reflexivity. Qed.

(** ** The recommended set *)

Section OrderBy.
Variable leb : Product -> Product -> bool.
Variable R : Product -> Product -> Prop.
Hypothesis leb_sound : forall x y, leb x y = true -> R x y.
Hypothesis leb_total : forall x y, leb x y = false -> R y x.
Hypothesis R_trans : forall x y z, R x y -> R y z -> R x z.

Lemma insert_row_Forall (P : Product -> Prop) (x : Product) (l : list Product) :
  P x -> Forall P l -> Forall P (insert_row leb x l).
Proof.
  intros Hx Hl. induction Hl as [|y l Hy Hl IH]; simpl.
  - by constructor.
  - destruct (leb x y); repeat constructor; auto.
Qed.

Lemma insert_row_sorted (x : Product) (l : list Product) :
  StronglySorted R l -> StronglySorted R (insert_row leb x l).
Proof.
  induction 1 as [|y l Hl IH Hy]; simpl.
  - repeat constructor.
  - destruct (leb x y) eqn:E.
    + constructor; [by constructor|].
      constructor; [by apply leb_sound|].
      eapply Forall_impl; [exact Hy|]. intros z Hz.
      eapply R_trans; [apply leb_sound; exact E | exact Hz].
    + constructor; [exact IH|].
      apply insert_row_Forall; [by apply leb_total | exact Hy].
Qed.

Lemma order_by_sorted (l : list Product) : StronglySorted R (order_by leb l).
Proof.
  induction l as [|x l IH]; simpl; [constructor|].
  by apply insert_row_sorted.
Qed.

Lemma order_by_Forall (P : Product -> Prop) (l : list Product) :
  Forall P l -> Forall P (order_by leb l).
Proof.
  induction 1 as [|x l Hx Hl IH]; simpl; [constructor|].
  by apply insert_row_Forall.
Qed.

End OrderBy.

Lemma StronglySorted_firstn {A : Type} (R : A -> A -> Prop) (n : nat) (l : list A) :
  StronglySorted R l -> StronglySorted R (firstn n l).
Proof.
  intros Hl. revert n. induction Hl as [|x l Hl IH Hx]; intros [|n]; simpl;
    try constructor; [apply IH|].
  by apply Forall_take.
Qed.

Lemma price_descending_sound (x y : Product) :
  price_descending x y = true -> price_not_rising x y.
Proof. unfold price_descending, price_not_rising. apply Qle_bool_imp_le. Qed.

Lemma price_descending_total (x y : Product) :
  price_descending x y = false -> price_not_rising y x.
Proof.
  unfold price_descending, price_not_rising. intros E.
  destruct (Qlt_le_dec (price x) (price y)) as [Hlt|Hle].
  - by apply Qlt_le_weak.
  - apply Qle_bool_iff in Hle. congruence.
Qed.

Lemma price_not_rising_trans (x y z : Product) :
  price_not_rising x y -> price_not_rising y z -> price_not_rising x z.
Proof. unfold price_not_rising. intros Hxy Hyz. by eapply Qle_trans. Qed.

(** C2.  Whatever the table holds and whether or not the store answers,
    the recommended set has at most six products, each of them is a row of
    the table with an inventory of ten or more, and their prices never rise
    along the list. *)
Theorem recommended_set_spec (w : World) :
  let products := (getRecommendedProducts w).1 in
  (length products <= 6)%nat /\
  Forall (fun p => 10 <= inventory p) products /\
  Forall (fun p => In p (table w)) products /\
  StronglySorted price_not_rising products.
Proof.
  unfold getRecommendedProducts, select_rows. simpl.
  destruct (fault w) as [m|]; simpl.
  - split; [simpl; lia|]. repeat split; constructor.
  - split; [apply firstn_le_length|].
    assert (Hf : Forall (fun p => 10 <= inventory p /\ In p (table w))
                   (List.filter (fun p => 10 <=? inventory p) (table w))).
    { apply List.Forall_forall. intros p Hp. apply filter_In in Hp as [Hin Hp].
      split; [by apply Z.leb_le | done]. }
    apply (order_by_Forall price_descending) in Hf.
    apply (Forall_take _ 6%nat) in Hf.
    split; [by eapply Forall_impl; [exact Hf|]; intros p [? ?]|].
    split; [by eapply Forall_impl; [exact Hf|]; intros p [? ?]|].
    apply StronglySorted_firstn.
    apply (order_by_sorted price_descending price_not_rising
             price_descending_sound price_descending_total price_not_rising_trans).
Qed.

(** ** The route handlers *)

Lemma strict_neq_false (a b : option string) :
  strict_neq a b = false <-> exists s, a = Some s /\ b = Some s.
Proof.
  destruct a as [x|], b as [y|]; simpl.
  - rewrite negb_false_iff, String.eqb_eq. split.
    + intros ->. by exists y.
    + intros [s [? ?]]. congruence.
  - split; [done | intros [s [? ?]]; done].
  - split; [done | intros [s [? ?]]; done].
  - split; [done | intros [s [? ?]]; done].
Qed.

Lemma authorised_strict_neq (env : Env) (request : Request) :
  authorised env request -> strict_neq (x_admin_key request) (ADMIN_KEY env) = false.
Proof. intros Ha. by apply strict_neq_false. Qed.

Lemma unauthorised_strict_neq (env : Env) (request : Request) :
  ~ authorised env request -> strict_neq (x_admin_key request) (ADMIN_KEY env) = true.
Proof.
  intros Hn. destruct (strict_neq _ _) eqn:E; [done|].
  apply strict_neq_false in E. contradiction.
Qed.

Section RouteFacts.
Context `{Postgres}.
Variable env : Env.

(** [POST], case by case. *)
Lemma POST_unfold (request : Request) (w : World) :
  POST env request w =
  if strict_neq (x_admin_key request) (ADMIN_KEY env) then (unauthorized, w)
  else
    let w1 := record_event ReadBody w in
    match body request with
    | None | Some JNull =>
        (NextResponse_json (ErrorJson "Failed to create product") (Some 500), w1)
    | Some b =>
        if validation_fails b
        then (NextResponse_json (ErrorJson "Missing required fields") (Some 400), w1)
        else
          match insert_single (create_values env b) w1 with
          | (PgError m, w2) => (NextResponse_json (ErrorJson m) (Some 500), w2)
          | (PgData product, w2) =>
              (NextResponse_json (ProductJson product) (Some 201), w2)
          end
    end.
Proof.
  unfold POST, try_catch. destruct (strict_neq _ _); [reflexivity|].
  unfold mbind, handler_bind, request_json.
  destruct (body request) as [b|]; [|reflexivity].
  destruct b; try reflexivity;
    unfold field, mret, handler_ret, validation_fails, create_values, await;
    match goal with |- context [if ?c then _ else _] => destruct c end;
    try reflexivity;
    match goal with |- context [insert_single ?v ?w] =>
      destruct (insert_single v w) as [[?|?] ?] end; reflexivity.
Qed.

(** [PUT], case by case. *)
Lemma PUT_unfold (request : Request) (key : string) (w : World) :
  PUT env request key w =
  if strict_neq (x_admin_key request) (ADMIN_KEY env) then (unauthorized, w)
  else
    let w1 := record_event ReadBody w in
    match body request with
    | None | Some JNull =>
        (NextResponse_json (ErrorJson "Failed to update product") (Some 500), w1)
    | Some b =>
        match update_single (update_values env b) key w1 with
        | (PgError m, w2) => (NextResponse_json (ErrorJson m) (Some 500), w2)
        | (PgData product, w2) => (NextResponse_json (ProductJson product) None, w2)
        end
    end.
Proof.
  unfold PUT, try_catch. destruct (strict_neq _ _); [reflexivity|].
  unfold mbind, handler_bind, request_json.
  destruct (body request) as [b|]; [|reflexivity].
  destruct b; try reflexivity;
    unfold field, mret, handler_ret, update_values, await;
    match goal with |- context [update_single ?v ?k ?w] =>
      destruct (update_single v k w) as [[?|?] ?] end; reflexivity.
Qed.

(** [GET] by slug, case by case. *)
Lemma GET_unfold (key : string) (w : World) :
  GET key w =
  match select_maybeSingle key w with
  | (PgError m, w1) => (NextResponse_json (ErrorJson m) (Some 500), w1)
  | (PgData None, w1) =>
      (NextResponse_json (ErrorJson "Product not found") (Some 404), w1)
  | (PgData (Some product), w1) => (NextResponse_json (ProductJson product) None, w1)
  end.
Proof.
  unfold GET, try_catch, mbind, handler_bind, await.
  destruct (select_maybeSingle key w) as [[[p|]|m] w1]; reflexivity.
Qed.

End RouteFacts.

Lemma validation_fails_spec (b : Json) :
  validation_fails b = true <-> refused_by_create b.
Proof.
  unfold validation_fails, refused_by_create, is_undefined.
  rewrite !orb_true_iff, !negb_true_iff.
  destruct (member b "price"), (member b "inventory"); intuition congruence.
Qed.

Lemma insert_single_log `{Postgres} (values : gmap string Json) (w : World) :
  log (insert_single values w).2 = (log w ++ [StoreInsert values])%list.
Proof.
  unfold insert_single. simpl.
  destruct (fault w); [reflexivity|].
  destruct (read_patch values) as [pa|m]; [|reflexivity].
  destruct (new_row pa _); [|reflexivity].
  destruct (keys_unique _); reflexivity.
Qed.

Lemma create_values_lookup (env : Env) (b : Json) (k : string) :
  k ∈ required_fields -> create_values env b !! k = member b k.
Proof.
  intros Hk. unfold create_values, object_literal. simpl.
  unfold required_fields in Hk.
  repeat (apply elem_of_cons in Hk as [->|Hk]);
    [..|by apply elem_of_nil in Hk];
    destruct (member b "name"), (member b "slug"), (member b "description"),
      (member b "price"), (member b "category"), (member b "inventory");
    by simplify_map_eq.
Qed.

(** *** What [PUT] sends to the table *)

Lemma assign_defined_lookup (k k' : string) (v : option Json) (o : gmap string Json) :
  assign_defined k v o !! k' =
  if decide (k = k') then (match v with Some j => Some j | None => o !! k' end)
  else o !! k'.
Proof.
  unfold assign_defined. destruct v as [j|].
  - by rewrite lookup_insert.
  - by case_decide.
Qed.

(** [updateData] holds the time stamp, the supplied ones of the five
    updatable fields, and nothing else. *)
Lemma update_values_lookup (env : Env) (b : Json) (k : string) :
  update_values env b !! k =
  if decide (k = "last_updated") then Some (JStr (now env))
  else if decide (k ∈ updatable_fields) then member b k
  else None.
Proof.
  unfold update_values, updateData_of, updatable_fields.
  rewrite !assign_defined_lookup, lookup_singleton.
  destruct (decide (k = "last_updated")) as [->|Hts].
  { generalize (member b "name"), (member b "description"), (member b "price"),
      (member b "category"), (member b "inventory").
    intros n d p c i. vm_compute. by destruct n, d, p, c, i. }
  rewrite (decide_False (P := "last_updated" = k)) by done.
  destruct (decide (k ∈ _)) as [Hin|Hout].
  - repeat (apply elem_of_cons in Hin as [->|Hin]); [..|by apply elem_of_nil in Hin];
      generalize (member b "name"), (member b "description"), (member b "price"),
        (member b "category"), (member b "inventory");
      intros n d p c i; vm_compute; by destruct n, d, p, c, i.
  - rewrite !decide_False; [done|..]; intros <-; apply Hout; set_solver.
Qed.
Section UpdateFacts.
Context `{Postgres}.
Variable env : Env.

Lemma update_values_columns (b : Json) :
  dom (update_values env b) ⊆ list_to_set columns.
Proof.
  intros k Hk. apply elem_of_dom in Hk as [j Hj].
  rewrite update_values_lookup in Hj.
  apply elem_of_list_to_set. unfold columns.
  destruct (decide (k = "last_updated")) as [->|Hts].
  { by apply (bool_decide_unpack _). }
  destruct (decide (k ∈ updatable_fields)) as [Hin|Hout]; [|done].
  unfold updatable_fields in Hin.
  repeat (apply elem_of_cons in Hin as [->|Hin]); [..|by apply elem_of_nil in Hin];
    by apply (bool_decide_unpack _).
Qed.

Lemma read_column_absent {A : Type} (conv : Json -> option A)
    (values : gmap string Json) (col : string) :
  values !! col = None -> read_column conv values col = Some None.
Proof. unfold read_column. by intros ->. Qed.

(** What the table reads from [updateData]: [id], [slug] and
    [created_at] are never mentioned. *)
Lemma read_patch_update (b : Json) (pa : Patch) :
  read_patch (update_values env b) = PgData pa ->
  pa_id pa = None /\ pa_slug pa = None /\ pa_created_at pa = None /\
  read_column text_in (update_values env b) "name" = Some (pa_name pa) /\
  read_column text_in (update_values env b) "description" = Some (pa_description pa) /\
  read_column numeric_in (update_values env b) "price" = Some (pa_price pa) /\
  read_column text_in (update_values env b) "category" = Some (pa_category pa) /\
  read_column int4_in (update_values env b) "inventory" = Some (pa_inventory pa) /\
  read_column timestamptz_in (update_values env b) "last_updated"
    = Some (pa_last_updated pa).
Proof.
  unfold read_patch.
  rewrite (read_column_absent uuid_in _ "id")
    by (rewrite update_values_lookup; reflexivity).
  rewrite (read_column_absent text_in _ "slug")
    by (rewrite update_values_lookup; reflexivity).
  rewrite (read_column_absent timestamptz_in _ "created_at")
    by (rewrite update_values_lookup; reflexivity).
  destruct (negb _); [done|].
  destruct (read_column text_in _ "name"); [|done].
  destruct (read_column text_in _ "description"); [|done].
  destruct (read_column numeric_in _ "price"); [|done].
  destruct (read_column text_in _ "category"); [|done].
  destruct (read_column int4_in _ "inventory"); [|done].
  destruct (read_column timestamptz_in _ "last_updated"); [|done].
  intros [= <-]. simpl. repeat split.
Qed.

End UpdateFacts.

(** *** The table under [update_single] *)

Lemma filter_has_slug_none (key : string) (rows : list Product) :
  (forall r, In r rows -> slug r <> key) -> List.filter (has_slug key) rows = [].
Proof.
  induction rows as [|x l IH]; intros Hno; [reflexivity|]. simpl.
  unfold has_slug at 1.
  destruct (String.eqb_spec (slug x) key) as [E|_].
  - exfalso. apply (Hno x); [by left | exact E].
  - apply IH. intros r Hr. apply Hno. by right.
Qed.

Lemma filter_has_slug_unique (r : Product) (rows : list Product) :
  NoDup (map slug rows) -> In r rows ->
  List.filter (has_slug (slug r)) rows = [r].
Proof.
  induction rows as [|x l IH]; intros Hnd Hin; [destruct Hin|].
  simpl in Hnd. apply NoDup_cons in Hnd as [Hx Hnd]. simpl.
  unfold has_slug at 1.
  destruct Hin as [->|Hin].
  - rewrite String.eqb_refl. f_equal.
    apply filter_has_slug_none. intros y Hy E.
    apply Hx. rewrite <- E. apply list_elem_of_In. by apply in_map.
  - destruct (String.eqb_spec (slug x) (slug r)) as [E|_].
    + exfalso. apply Hx. rewrite E. apply list_elem_of_In. by apply in_map.
    + by apply IH.
Qed.

Lemma keys_unique_spec (rows : list Product) :
  keys_unique rows = true <-> NoDup (map id rows) /\ NoDup (map slug rows).
Proof.
  unfold keys_unique. by rewrite andb_true_iff, !bool_decide_eq_true.
Qed.

Section PatchFacts.
Context `{Postgres}.
Variables (pa : Patch) (key : string).
Hypothesis no_id : pa_id pa = None.
Hypothesis no_slug : pa_slug pa = None.

Lemma apply_patch_id (r : Product) : id (apply_patch pa r) = id r.
Proof. simpl. by rewrite no_id. Qed.

Lemma apply_patch_slug (r : Product) : slug (apply_patch pa r) = slug r.
Proof. simpl. by rewrite no_slug. Qed.

Lemma patched_rows_id (rows : list Product) :
  map id (map (fun r => if has_slug key r then apply_patch pa r else r) rows)
  = map id rows.
Proof.
  rewrite map_map. apply map_ext. intros r.
  destruct (has_slug key r); [apply apply_patch_id | reflexivity].
Qed.

Lemma patched_rows_slug (rows : list Product) :
  map slug (map (fun r => if has_slug key r then apply_patch pa r else r) rows)
  = map slug rows.
Proof.
  rewrite map_map. apply map_ext. intros r.
  destruct (has_slug key r); [apply apply_patch_slug | reflexivity].
Qed.

Lemma patched_rows_unique (rows : list Product) :
  keys_unique (map (fun r => if has_slug key r then apply_patch pa r else r) rows)
  = keys_unique rows.
Proof. unfold keys_unique. by rewrite patched_rows_id, patched_rows_slug. Qed.

End PatchFacts.

Section UpdateTheorems.
Context `{Postgres}.
Variable env : Env.

(** The slugs of the table after [update_single] on what [PUT] sends. *)
Lemma update_single_slugs (b : Json) (key : string) (w : World) :
  map slug (table (update_single (update_values env b) key w).2) = map slug (table w).
Proof.
  unfold update_single. simpl.
  destruct (fault w); [reflexivity|].
  destruct (read_patch (update_values env b)) as [pa|m] eqn:Hpa; [|reflexivity].
  apply read_patch_update in Hpa as (Hid & Hslug & _).
  destruct (negb _); [reflexivity|].
  destruct (map (apply_patch pa) _) as [|r [|? ?]]; try reflexivity.
  simpl. by apply patched_rows_slug.
Qed.

End UpdateTheorems.

Section ReadableFacts.
Context `{Postgres}.
Variable env : Env.

Lemma read_column_readable {A : Type} (conv : Json -> option A)
    (values : gmap string Json) (col : string) (o : option Json) :
  values !! col = o -> readable conv o ->
  exists x, read_column conv values col = Some x.
Proof.
  intros Hv Hr. unfold read_column. rewrite Hv.
  destruct o as [j|]; simpl in Hr.
  - destruct Hr as [a ->]. by exists (Some a).
  - by exists None.
Qed.

Lemma read_column_supplied {A : Type} (conv : Json -> option A)
    (values : gmap string Json) (col : string) (o : option Json)
    (x : option A) (prior : A) :
  values !! col = o -> read_column conv values col = Some x ->
  supplied_or_kept conv o prior (default prior x).
Proof.
  intros Hv. unfold read_column. rewrite Hv.
  destruct o as [j|]; simpl.
  - destruct (conv j) as [a|]; [|done]. by intros [= <-].
  - by intros [= <-].
Qed.

(** The table reads what [PUT] sends whenever it can read each value. *)
Lemma read_patch_update_readable (b : Json) :
  update_readable env b -> exists pa, read_patch (update_values env b) = PgData pa.
Proof.
  intros (Hn & Hd & Hp & Hc & Hi & Ht).
  unfold read_patch.
  rewrite (bool_decide_eq_true_2 _ (update_values_columns env b)). simpl.
  rewrite (read_column_absent uuid_in _ "id")
    by (rewrite update_values_lookup; reflexivity).
  rewrite (read_column_absent text_in _ "slug")
    by (rewrite update_values_lookup; reflexivity).
  rewrite (read_column_absent timestamptz_in _ "created_at")
    by (rewrite update_values_lookup; reflexivity).
  destruct (read_column_readable text_in (update_values env b) "name" _
              ltac:(rewrite update_values_lookup; reflexivity) Hn) as [? ->].
  destruct (read_column_readable text_in (update_values env b) "description" _
              ltac:(rewrite update_values_lookup; reflexivity) Hd) as [? ->].
  destruct (read_column_readable numeric_in (update_values env b) "price" _
              ltac:(rewrite update_values_lookup; reflexivity) Hp) as [? ->].
  destruct (read_column_readable text_in (update_values env b) "category" _
              ltac:(rewrite update_values_lookup; reflexivity) Hc) as [? ->].
  destruct (read_column_readable int4_in (update_values env b) "inventory" _
              ltac:(rewrite update_values_lookup; reflexivity) Hi) as [? ->].
  destruct (read_column_readable timestamptz_in (update_values env b) "last_updated" _
              ltac:(rewrite update_values_lookup; reflexivity) Ht) as [? ->].
  eexists. reflexivity.
Qed.

End ReadableFacts.

Section Claims.
Context `{Postgres}.
Variable env : Env.

(** C4.  A mutation request that does not carry the configured secret is
    answered with 401 and leaves the world as it was: the body is not read
    and the table is neither asked nor changed, whatever the body holds. *)
Theorem unauthorised_mutation_rejected (request : Request) (key : string) (w : World) :
  ~ authorised env request ->
  POST env request w = (unauthorized, w) /\
  PUT env request key w = (unauthorized, w) /\
  status unauthorized = 401.
Proof.
  intros Hn. apply unauthorised_strict_neq in Hn.
  rewrite POST_unfold, PUT_unfold, Hn. done.
Qed.

(** The answer of [POST] to an authorised request with a readable body. *)
Lemma POST_validation (request : Request) (w : World) (b : Json) :
  authorised env request -> body request = Some b -> b <> JNull ->
  (status (POST env request w).1 = 400 <-> refused_by_create b) /\
  (refused_by_create b ->
     (POST env request w).2 = record_event ReadBody w) /\
  (~ refused_by_create b ->
     log (POST env request w).2
       = (log w ++ [ReadBody; StoreInsert (create_values env b)])%list /\
     forall k, k ∈ required_fields -> create_values env b !! k = member b k).
Proof.
  intros Ha Hb Hnull. apply authorised_strict_neq in Ha.
  rewrite POST_unfold, Ha, Hb. rewrite <- validation_fails_spec.
  assert (Hlog := insert_single_log (create_values env b) (record_event ReadBody w)).
  destruct b; try done;
    (destruct (validation_fails _) eqn:Hv; simpl;
     [ split; [done|]; split; [done|]; intros Hc; by destruct Hc
     | destruct (insert_single _ _) as [[p|m] w2]; simpl in *;
       (split; [split; [intros; lia | done]|]);
       (split; [done|]); intros _;
       (split; [rewrite Hlog, <- app_assoc; reflexivity
               | intros k Hk; by apply create_values_lookup]) ]).
Qed.

(** C5, as amended.  For an authorised create request whose body parses
    to a value other than [null], the answer is 400 exactly when a text
    field (name, slug, description, category) is absent or falsy or a
    numeric field (price, inventory) is absent; on 400 the table is not
    called and keeps its rows; otherwise the insert is attempted with the
    six fields of the body. *)
Theorem create_validation (request : Request) (w : World) (b : Json) :
  authorised env request -> body request = Some b -> b <> JNull ->
  (status (POST env request w).1 = 400 <-> refused_by_create b) /\
  (refused_by_create b ->
     (POST env request w).2 = record_event ReadBody w) /\
  (~ refused_by_create b ->
     log (POST env request w).2
       = (log w ++ [ReadBody; StoreInsert (create_values env b)])%list /\
     forall k, k ∈ required_fields -> create_values env b !! k = member b k).
Proof. apply POST_validation. Qed.

(** C10.  The presence test of [POST] treats text and numbers unequally:
    an empty text in name, slug, description or category is answered with
    400; once the four texts are truthy, 400 is answered exactly when price
    or inventory is absent, so zero and [null] pass and reach the insert. *)
Theorem create_validation_asymmetric (request : Request) (w : World) (b : Json) :
  authorised env request -> body request = Some b -> b <> JNull ->
  ((member b "name" = Some (JStr EmptyString) \/
    member b "slug" = Some (JStr EmptyString) \/
    member b "description" = Some (JStr EmptyString) \/
    member b "category" = Some (JStr EmptyString)) ->
   status (POST env request w).1 = 400) /\
  (truthy (member b "name") = true -> truthy (member b "slug") = true ->
   truthy (member b "description") = true -> truthy (member b "category") = true ->
   (status (POST env request w).1 = 400 <->
    member b "price" = None \/ member b "inventory" = None) /\
   ((member b "price" = Some (JNum 0) \/ member b "price" = Some JNull) ->
    (member b "inventory" = Some (JNum 0) \/ member b "inventory" = Some JNull) ->
    status (POST env request w).1 <> 400 /\
    log (POST env request w).2
      = (log w ++ [ReadBody; StoreInsert (create_values env b)])%list)).
Proof.
  intros Ha Hb Hnull.
  destruct (POST_validation request w b Ha Hb Hnull) as (H400 & _ & Hins).
  split.
  - intros Hempty. apply H400. unfold refused_by_create.
    destruct Hempty as [E|[E|[E|E]]]; rewrite E; simpl; tauto.
  - intros Hn Hs Hd Hc.
    assert (Hiff : refused_by_create b <->
                   member b "price" = None \/ member b "inventory" = None).
    { unfold refused_by_create. rewrite Hn, Hs, Hd, Hc. intuition congruence. }
    split; [by rewrite H400|].
    intros Hp Hi.
    assert (Hok : ~ refused_by_create b).
    { rewrite Hiff. intros [E|E]; rewrite E in *; intuition congruence. }
    split; [by rewrite H400 | by apply Hins].
Qed.

(** C6.  [GET] for a slug that no row carries: as long as the store
    answers, the reply is 404 with the not-found message; a 500 on such a
    slug can only come from a store that refuses the call. *)
Theorem get_missing_slug_not_found (key : string) (w : World) :
  (forall r, In r (table w) -> slug r <> key) ->
  (fault w = None ->
   GET key w = (NextResponse_json (ErrorJson "Product not found") (Some 404),
                record_event StoreSelect w)) /\
  (status (GET key w).1 = 404 \/ status (GET key w).1 = 500) /\
  (status (GET key w).1 = 500 -> fault w <> None).
Proof.
  intros Hno. rewrite GET_unfold. unfold select_maybeSingle. simpl.
  rewrite (filter_has_slug_none key (table w) Hno).
  destruct (fault w) as [m|]; simpl.
  - split; [done|]. split; [by right | done].
  - split; [done|]. split; [by left | done].
Qed.

(** The answers [PUT] can give. *)
Lemma PUT_status (request : Request) (key : string) (w : World) :
  status (PUT env request key w).1 = 200 \/
  status (PUT env request key w).1 = 401 \/
  status (PUT env request key w).1 = 500.
Proof.
  rewrite PUT_unfold.
  destruct (strict_neq _ _); [right; left; reflexivity|].
  destruct (body request) as [b|]; [|right; right; reflexivity].
  destruct b; simpl; try (right; right; reflexivity);
    match goal with |- context [update_single ?v ?k ?x] =>
      destruct (update_single v k x) as [[p|m] w2] end;
    simpl; solve [left; reflexivity | right; right; reflexivity].
Qed.

(** [update_single] on what [PUT] sends, when no row carries the slug. *)
Lemma update_single_no_row (b : Json) (key : string) (w : World) :
  (forall r, In r (table w) -> slug r <> key) ->
  exists m, update_single (update_values env b) key w
            = (PgError m, record_event (StoreUpdate (update_values env b) key) w) /\
            (fault w = None -> keys_unique (table w) = true ->
             update_readable env b -> m = err_single).
Proof.
  intros Hno. unfold update_single. simpl.
  rewrite (filter_has_slug_none key (table w) Hno). simpl.
  destruct (fault w) as [m|]; [by exists m|].
  destruct (read_patch (update_values env b)) as [pa|m] eqn:Hpa.
  - apply read_patch_update in Hpa as (Hid & Hslug & _).
    rewrite (patched_rows_unique pa key Hid Hslug).
    destruct (keys_unique (table w)); simpl.
    + by exists err_single.
    + by exists err_unique.
  - exists m. split; [done|]. intros _ _ Hr.
    apply read_patch_update_readable in Hr as [pa Hr]. congruence.
Qed.

(** C7.  An authorised update of a slug that no row carries is answered
    with 500 and an error message, and the table keeps its rows; when the
    store itself is in order the message is the one of the row-count
    check, delivered on the same path as every other store error.  No
    request to [PUT] is ever answered with 404. *)
Theorem update_missing_row_is_500 (request : Request) (key : string) (w : World) :
  authorised env request ->
  (forall r, In r (table w) -> slug r <> key) ->
  status (PUT env request key w).1 = 500 /\
  (exists m, payload (PUT env request key w).1 = ErrorJson m) /\
  table (PUT env request key w).2 = table w /\
  (forall b, body request = Some b -> b <> JNull -> fault w = None ->
             keys_unique (table w) = true -> update_readable env b ->
             payload (PUT env request key w).1 = ErrorJson err_single) /\
  (forall request' key' w', status (PUT env request' key' w').1 <> 404).
Proof.
  intros Ha Hno. apply authorised_strict_neq in Ha.
  assert (H404 : forall request' key' w', status (PUT env request' key' w').1 <> 404).
  { intros request' key' w'.
    destruct (PUT_status request' key' w') as [E|[E|E]]; rewrite E; lia. }
  rewrite PUT_unfold, Ha.
  destruct (body request) as [b|]; simpl.
  - assert (Hrow := fun b => update_single_no_row b key (record_event ReadBody w) Hno).
    destruct b; simpl;
      try (destruct (Hrow ltac:(constructor; fail)) as (m & -> & Hm));
      try (repeat split; eauto; intros b' [= <-]; try done; fail).
    all: match goal with
         | |- context [update_single (update_values env ?b) _ _] =>
             destruct (Hrow b) as (m & -> & Hm); simpl;
             repeat split; eauto; intros b' [= <-] _ Hf Hu Hr;
             f_equal; by apply Hm
         end.
  - repeat split; eauto. intros b' [=].
Qed.

(** C8.  [PUT] never changes a slug: whatever the request, the slugs of
    the table are the same before and after, row by row; a slug in the body
    is not passed on to the table. *)
Theorem slug_immutable_under_update (request : Request) (key : string) (w : World) :
  map slug (table (PUT env request key w).2) = map slug (table w) /\
  (forall b, update_values env b !! "slug" = None).
Proof.
  split; [|intros b; rewrite update_values_lookup; reflexivity].
  rewrite PUT_unfold.
  destruct (strict_neq _ _); [reflexivity|].
  destruct (body request) as [b|]; [|reflexivity].
  assert (Hs := fun b => update_single_slugs env b key (record_event ReadBody w)).
  destruct b; cbv zeta; try reflexivity;
    match goal with
    | |- context [update_single (update_values env ?b) _ _] =>
        specialize (Hs b);
        destruct (update_single (update_values env b) _ _) as [[p|m] w2];
        exact Hs
    end.
Qed.

(** [PUT] on an authorised request with a readable body. *)
Lemma PUT_authorised (request : Request) (key : string) (w : World) (b : Json) :
  authorised env request -> body request = Some b -> b <> JNull ->
  PUT env request key w =
  match update_single (update_values env b) key (record_event ReadBody w) with
  | (PgError m, w2) => (NextResponse_json (ErrorJson m) (Some 500), w2)
  | (PgData product, w2) => (NextResponse_json (ProductJson product) None, w2)
  end.
Proof.
  intros Ha Hb Hnull. apply authorised_strict_neq in Ha.
  rewrite PUT_unfold, Ha, Hb. by destruct b.
Qed.

Lemma slug_determines_row (rows : list Product) (x r : Product) :
  NoDup (map slug rows) -> In x rows -> In r rows -> slug x = slug r -> x = r.
Proof.
  induction rows as [|y l IH]; intros Hnd Hx Hr E; [destruct Hx|].
  simpl in Hnd. apply NoDup_cons in Hnd as [Hy Hnd].
  destruct Hx as [->|Hx], Hr as [->|Hr]; [done|..].
  - exfalso. apply Hy. rewrite E. apply list_elem_of_In. by apply in_map.
  - exfalso. apply Hy. rewrite <- E. apply list_elem_of_In. by apply in_map.
  - by apply IH.
Qed.

(** C3.  An authorised update of an existing product, with values the
    table can read, is answered with 200 and the updated row.  In the table
    the row of that slug is replaced by the updated row and every other row
    stays.  In the updated row each of name, description, price, category
    and inventory holds the supplied value when the body supplies one and
    the prior value when it does not; id, slug and created_at are the prior
    ones; last_updated is the time of the request, also when the body
    supplies no field at all. *)
Theorem update_changes_supplied_fields
    (request : Request) (key : string) (w : World) (b : Json) (r : Product) :
  authorised env request -> body request = Some b -> b <> JNull ->
  fault w = None -> keys_unique (table w) = true ->
  In r (table w) -> slug r = key ->
  update_readable env b ->
  exists r' : Product,
    PUT env request key w =
      ({| payload := ProductJson r'; status := 200 |},
       commit (map (fun x => if has_slug key x then r' else x) (table w))
         (record_event (StoreUpdate (update_values env b) key)
            (record_event ReadBody w))) /\
    id r' = id r /\ slug r' = slug r /\ created_at r' = created_at r /\
    timestamptz_in (JStr (now env)) = Some (last_updated r') /\
    supplied_or_kept text_in (member b "name") (name r) (name r') /\
    supplied_or_kept text_in (member b "description") (description r) (description r') /\
    supplied_or_kept numeric_in (member b "price") (price r) (price r') /\
    supplied_or_kept text_in (member b "category") (category r) (category r') /\
    supplied_or_kept int4_in (member b "inventory") (inventory r) (inventory r').
Proof.
  intros Ha Hb Hnull Hfault Huniq Hin <- Hread.
  rewrite (PUT_authorised request (slug r) w b Ha Hb Hnull).
  destruct (read_patch_update_readable env b Hread) as [pa Hpa].
  unfold update_single. simpl. rewrite Hfault, Hpa.
  destruct (read_patch_update env b pa Hpa)
    as (Hid & Hslug & Hcr & Hn & Hd & Hp & Hc & Hi & Ht).
  rewrite (patched_rows_unique pa (slug r) Hid Hslug), Huniq. simpl.
  apply keys_unique_spec in Huniq as [_ Hnd].
  rewrite (filter_has_slug_unique r (table w) Hnd Hin). simpl.
  exists (apply_patch pa r). split.
  { f_equal. unfold commit. simpl. f_equal.
    apply map_ext_in. intros x Hx. unfold has_slug.
    destruct (String.eqb_spec (slug x) (slug r)) as [E|_]; [|reflexivity].
    by rewrite (slug_determines_row (table w) x r Hnd Hx Hin E). }
  split; [by apply apply_patch_id|].
  split; [by apply apply_patch_slug|].
  split; [simpl; by rewrite Hcr|].
  split.
  { pose proof (read_column_supplied timestamptz_in (update_values env b)
                  "last_updated" (Some (JStr (now env))) (pa_last_updated pa)
                  (last_updated r)
                  ltac:(rewrite update_values_lookup; reflexivity) Ht) as Hs.
    exact Hs. }
  split.
  { exact (read_column_supplied text_in (update_values env b) "name" _ _ (name r)
             ltac:(rewrite update_values_lookup; reflexivity) Hn). }
  split.
  { exact (read_column_supplied text_in (update_values env b) "description" _ _
             (description r)
             ltac:(rewrite update_values_lookup; reflexivity) Hd). }
  split.
  { exact (read_column_supplied numeric_in (update_values env b) "price" _ _
             (price r)
             ltac:(rewrite update_values_lookup; reflexivity) Hp). }
  split.
  { exact (read_column_supplied text_in (update_values env b) "category" _ _
             (category r)
             ltac:(rewrite update_values_lookup; reflexivity) Hc). }
  exact (read_column_supplied int4_in (update_values env b) "inventory" _ _
           (inventory r)
           ltac:(rewrite update_values_lookup; reflexivity) Hi).
Qed.

End Claims.

(** ** The statements at concrete requests *)

(** Renaming the USB-C hub and setting its price: the description, the
    category and the inventory stay, and so does the slug the body tried to set. *)
Lemma update_changes_supplied_fields_witness :
  exists r' : Product,
    PUT (H := strict_table) example_env rename_request "usb-c-hub" example_world =
      ({| payload := ProductJson r'; status := 200 |},
       commit (map (fun x => if has_slug "usb-c-hub" x then r' else x)
                   (table example_world))
         (record_event (StoreUpdate (update_values example_env rename_body) "usb-c-hub")
            (record_event ReadBody example_world))) /\
    id r' = "id-3" /\ slug r' = "usb-c-hub" /\
    created_at r' = "2024-01-01T00:00:00.000Z" /\
    Some (now example_env) = Some (last_updated r') /\
    Some "USB-C Dock" = Some (name r') /\
    description r' = "7-in-1 USB-C hub with HDMI and USB 3.0 ports" /\
    Some (59 : Q) = Some (price r') /\
    category r' = "Accessories" /\
    inventory r' = 8.
Proof.
  apply (update_changes_supplied_fields (H := strict_table) example_env rename_request
           "usb-c-hub" example_world rename_body usb_c_hub).
  - by exists "admin123".
  - reflexivity.
  - discriminate.
  - reflexivity.
  - vm_compute. reflexivity.
  - simpl. tauto.
  - reflexivity.
  - unfold update_readable. simpl. repeat split; by eexists.
Defined.

(** A wrong key with a body that does not even parse: 401, nothing touched. *)
Lemma unauthorised_mutation_rejected_witness :
  POST (H := strict_table) example_env wrong_key_request example_world
    = (unauthorized, example_world) /\
  PUT (H := strict_table) example_env wrong_key_request "usb-c-hub" example_world
    = (unauthorized, example_world) /\
  status unauthorized = 401.
Proof.
  apply (unauthorised_mutation_rejected (H := strict_table) example_env
           wrong_key_request "usb-c-hub" example_world).
  intros [secret [E1 E2]]. simpl in E1, E2. congruence.
Defined.

(** C5 as stated fails: all six fields are present in [empty_name_body],
    yet the answer is 400. *)
Lemma create_presence_only_refuted :
  ~ (forall (H : Postgres) (env : Env) (request : Request) (w : World) (b : Json),
        authorised env request -> body request = Some b ->
        (status (POST env request w).1 = 400 <-> missing_required b)).
Proof.
  intros Hclaim.
  destruct (Hclaim strict_table example_env empty_name_request example_world
              empty_name_body) as [Hmissing _].
  - by exists "admin123".
  - reflexivity.
  - destruct Hmissing as (k & Hk & Hnone); [vm_compute; reflexivity|].
    unfold required_fields in Hk.
    repeat (apply elem_of_cons in Hk as [->|Hk]); try discriminate Hnone.
    by apply elem_of_nil in Hk.
Qed.

(** The create request with the empty name. *)
Lemma create_validation_witness :
  (status (POST (H := strict_table) example_env empty_name_request example_world).1 = 400
   <-> refused_by_create empty_name_body) /\
  (refused_by_create empty_name_body ->
     (POST (H := strict_table) example_env empty_name_request example_world).2
     = record_event ReadBody example_world) /\
  (~ refused_by_create empty_name_body ->
     log (POST (H := strict_table) example_env empty_name_request example_world).2
       = (log example_world
          ++ [ReadBody; StoreInsert (create_values example_env empty_name_body)])%list /\
     forall k, k ∈ required_fields ->
               create_values example_env empty_name_body !! k = member empty_name_body k).
Proof.
  apply (create_validation (H := strict_table) example_env empty_name_request
           example_world empty_name_body).
  - by exists "admin123".
  - reflexivity.
  - discriminate.
Defined.

(** Price zero and inventory [null] pass the test and reach the insert. *)
Lemma create_validation_asymmetric_witness :
  status (POST (H := strict_table) example_env zero_price_request example_world).1 <> 400 /\
  log (POST (H := strict_table) example_env zero_price_request example_world).2
    = (log example_world
       ++ [ReadBody; StoreInsert (create_values example_env zero_price_body)])%list.
Proof.
  refine (proj2 (proj2 (create_validation_asymmetric (H := strict_table) example_env
            zero_price_request example_world zero_price_body _ _ _) _ _ _ _) _ _).
  - by exists "admin123".
  - reflexivity.
  - discriminate.
  - reflexivity.
  - reflexivity.
  - reflexivity.
  - reflexivity.
  - left. reflexivity.
  - right. reflexivity.
Defined.

(** A slug the sample table does not hold. *)
Lemma get_missing_slug_not_found_witness :
  GET "no-such-product" example_world
  = (NextResponse_json (ErrorJson "Product not found") (Some 404),
     record_event StoreSelect example_world).
Proof.
  refine (proj1 (get_missing_slug_not_found "no-such-product" example_world _) _).
  - intros r Hr. simpl in Hr.
    repeat (destruct Hr as [<-|Hr]; [discriminate|]). destruct Hr.
  - reflexivity.
Defined.

(** The same rename, aimed at a slug the sample table does not hold. *)
Lemma update_missing_row_is_500_witness :
  status (PUT (H := strict_table) example_env rename_request "no-such-product"
            example_world).1 = 500 /\
  payload (PUT (H := strict_table) example_env rename_request "no-such-product"
             example_world).1 = ErrorJson err_single /\
  table (PUT (H := strict_table) example_env rename_request "no-such-product"
           example_world).2 = table example_world.
Proof.
  destruct (update_missing_row_is_500 (H := strict_table) example_env rename_request
              "no-such-product" example_world) as (H500 & _ & Htable & Hmsg & _).
  - by exists "admin123".
  - intros r Hr. simpl in Hr.
    repeat (destruct Hr as [<-|Hr]; [discriminate|]). destruct Hr.
  - split; [exact H500|]. split; [|exact Htable].
    apply (Hmsg rename_body).
    + reflexivity.
    + discriminate.
    + reflexivity.
    + vm_compute. reflexivity.
    + unfold update_readable. simpl. repeat split; by eexists.
Defined.

(** * Further properties *)

(** ** Creating products *)

Lemma validation_passes_members (b : Json) :
  validation_fails b = false ->
  exists jn js jd jp jc ji,
    member b "name" = Some jn /\ member b "slug" = Some js /\
    member b "description" = Some jd /\ member b "price" = Some jp /\
    member b "category" = Some jc /\ member b "inventory" = Some ji.
Proof.
  unfold validation_fails. intros Hv.
  repeat (apply orb_false_elim in Hv as [Hv ?]).
  destruct (member b "name") as [jn|]; [|done].
  destruct (member b "slug") as [js|]; [|done].
  destruct (member b "description") as [jd|]; [|done].
  destruct (member b "price") as [jp|]; [|done].
  destruct (member b "category") as [jc|]; [|done].
  destruct (member b "inventory") as [ji|]; [|done].
  by exists jn, js, jd, jp, jc, ji.
Qed.

Section CreateFacts.
Context `{Postgres}.
Variable env : Env.

(** What the table reads from the values of a create request. *)
Lemma read_patch_create (b : Json) (pa : Patch) :
  validation_fails b = false ->
  read_patch (create_values env b) = PgData pa ->
  pa_id pa = None /\ pa_created_at pa = None /\
  (exists n, pa_name pa = Some n /\ read_as text_in (member b "name") n) /\
  (exists s, pa_slug pa = Some s /\ read_as text_in (member b "slug") s) /\
  (exists d, pa_description pa = Some d /\ read_as text_in (member b "description") d) /\
  (exists p, pa_price pa = Some p /\ read_as numeric_in (member b "price") p) /\
  (exists c, pa_category pa = Some c /\ read_as text_in (member b "category") c) /\
  (exists i, pa_inventory pa = Some i /\ read_as int4_in (member b "inventory") i) /\
  (exists l, pa_last_updated pa = Some l /\ timestamptz_in (JStr (now env)) = Some l).
Proof.
  intros Hv.
  destruct (validation_passes_members b Hv)
    as (jn & js & jd & jp & jc & ji & En & Es & Ed & Ep & Ec & Ei).
  unfold create_values, read_patch, read_as. rewrite En, Es, Ed, Ep, Ec, Ei.
  unfold object_literal. simpl.
  destruct (negb _); [done|].
  unfold read_column. simplify_map_eq.
  destruct (text_in jn) as [n|] eqn:Hn; [|done].
  destruct (text_in js) as [s|] eqn:Hs; [|done].
  destruct (text_in jd) as [d|] eqn:Hd; [|done].
  destruct (numeric_in jp) as [p|] eqn:Hp; [|done].
  destruct (text_in jc) as [c|] eqn:Hc; [|done].
  destruct (int4_in ji) as [i|] eqn:Hi; [|done].
  destruct (timestamptz_in (JStr (now env))) as [l|] eqn:Hl; [|done].
  intros [= <-]. simpl. repeat split; eauto 6.
Qed.

End CreateFacts.

(** ** Effects of the store calls *)

Section StoreCases.
Context `{Postgres}.

(** [insert_single]: a row is appended exactly when the call succeeds. *)
Lemma insert_single_cases (values : gmap string Json) (w : World) :
  match insert_single values w with
  | (PgData r, w') =>
      exists pa, fault w = None /\ read_patch values = PgData pa /\
                 new_row pa w = Some r /\ keys_unique (table w ++ [r]) = true /\
                 w' = bump_serial (commit (table w ++ [r])
                                     (record_event (StoreInsert values) w))
  | (PgError m, w') => w' = record_event (StoreInsert values) w
  end.
Proof.
  unfold insert_single. simpl.
  destruct (fault w); [reflexivity|].
  destruct (read_patch values) as [pa|m]; [|reflexivity].
  change (new_row pa (record_event (StoreInsert values) w)) with (new_row pa w).
  destruct (new_row pa w) as [r|] eqn:Hr; [|reflexivity].
  destruct (keys_unique (table w ++ [r])) eqn:Hu; [|reflexivity].
  by exists pa.
Qed.

(** [update_single]: rows change exactly when the call succeeds. *)
Lemma update_single_cases (values : gmap string Json) (key : string) (w : World) :

  match update_single values key w with
  | (PgData r, w') =>
      exists pa r0,
        fault w = None /\ read_patch values = PgData pa /\
        List.filter (has_slug key) (table w) = [r0] /\ r = apply_patch pa r0 /\
        keys_unique (map (fun x => if has_slug key x then apply_patch pa x else x)
                         (table w)) = true /\
        w' = commit (map (fun x => if has_slug key x then apply_patch pa x else x)
                         (table w))
               (record_event (StoreUpdate values key) w)
  | (PgError m, w') => w' = record_event (StoreUpdate values key) w
  end.
Proof.
  unfold update_single. simpl.
  destruct (fault w); [reflexivity|].
  destruct (read_patch values) as [pa|m]; [|reflexivity].
  destruct (keys_unique _) eqn:Hu; simpl; [|reflexivity].
  destruct (List.filter (has_slug key) (table w)) as [|r0 [|? ?]] eqn:Hf;
    simpl; try reflexivity.
  by exists pa, r0.
Qed.

End StoreCases.

(** ** The mutation handlers, case by case *)

Section HandlerCases.
Context `{Postgres}.
Variable env : Env.

Lemma POST_cases (request : Request) (w : World) :
  (~ authorised env request /\ POST env request w = (unauthorized, w)) \/
  (authorised env request /\
   (body request = None \/ body request = Some JNull) /\
   POST env request w =
     (NextResponse_json (ErrorJson "Failed to create product") (Some 500),
      record_event ReadBody w)) \/
  (authorised env request /\
   exists b, body request = Some b /\ b <> JNull /\
     POST env request w =
       if validation_fails b
       then (NextResponse_json (ErrorJson "Missing required fields") (Some 400),
             record_event ReadBody w)
       else
         match insert_single (create_values env b) (record_event ReadBody w) with
         | (PgError m, w2) => (NextResponse_json (ErrorJson m) (Some 500), w2)
         | (PgData product, w2) =>
             (NextResponse_json (ProductJson product) (Some 201), w2)
         end).
Proof.
  rewrite POST_unfold.
  destruct (strict_neq _ _) eqn:Ha.
  { left. split; [|reflexivity]. intros Hauth.
    apply authorised_strict_neq in Hauth. congruence. }
  apply strict_neq_false in Ha. right.
  destruct (body request) as [b|]; [|left; auto].
  destruct b; [left; auto|right..]; (split; [exact Ha|]); eexists;
    (split; [reflexivity|]); (split; [discriminate|]); reflexivity.
Qed.

Lemma PUT_cases (request : Request) (key : string) (w : World) :
  (~ authorised env request /\ PUT env request key w = (unauthorized, w)) \/
  (authorised env request /\
   (body request = None \/ body request = Some JNull) /\
   PUT env request key w =
     (NextResponse_json (ErrorJson "Failed to update product") (Some 500),
      record_event ReadBody w)) \/
  (authorised env request /\
   exists b, body request = Some b /\ b <> JNull /\
     PUT env request key w =
       match update_single (update_values env b) key (record_event ReadBody w) with
       | (PgError m, w2) => (NextResponse_json (ErrorJson m) (Some 500), w2)
       | (PgData product, w2) => (NextResponse_json (ProductJson product) None, w2)
       end).
Proof.
  rewrite PUT_unfold.
  destruct (strict_neq _ _) eqn:Ha.
  { left. split; [|reflexivity]. intros Hauth.
    apply authorised_strict_neq in Hauth. congruence. }
  apply strict_neq_false in Ha. right.
  destruct (body request) as [b|]; [|left; auto].
  destruct b; [left; auto|right..]; (split; [exact Ha|]); eexists;
    (split; [reflexivity|]); (split; [discriminate|]); reflexivity.
Qed.

(** A create that answers with a product. *)
Lemma POST_created_inv (request : Request) (w : World) (p : Product) :
  payload (POST env request w).1 = ProductJson p ->
  exists b pa,
    authorised env request /\ body request = Some b /\ b <> JNull /\
    validation_fails b = false /\ fault w = None /\
    read_patch (create_values env b) = PgData pa /\ new_row pa w = Some p /\
    keys_unique (table w ++ [p]) = true /\
    POST env request w =
      ({| payload := ProductJson p; status := 201 |},
       bump_serial (commit (table w ++ [p])
                      (record_event (StoreInsert (create_values env b))
                         (record_event ReadBody w)))).
Proof.
  destruct (POST_cases request w)
    as [[_ E]|[(_ & _ & E)|(Ha & b & Hb & Hnull & E)]]; rewrite E; try discriminate.
  destruct (validation_fails b) eqn:Hv; [discriminate|].
  pose proof (insert_single_cases (create_values env b) (record_event ReadBody w))
    as Hins.
  destruct (insert_single _ _) as [[r|m] w2]; [|discriminate].
  simpl. intros [= ->].
  destruct Hins as (pa & Hf & Hpa & Hrow & Hu & ->).
  exists b, pa. repeat split; auto.
Qed.

(** An update that answers with a product. *)
Lemma PUT_updated_inv (request : Request) (key : string) (w : World) (p : Product) :
  payload (PUT env request key w).1 = ProductJson p ->
  exists b pa r0,
    authorised env request /\ body request = Some b /\ b <> JNull /\
    fault w = None /\ read_patch (update_values env b) = PgData pa /\
    List.filter (has_slug key) (table w) = [r0] /\ p = apply_patch pa r0 /\
    keys_unique (map (fun x => if has_slug key x then apply_patch pa x else x)
                     (table w)) = true /\
    PUT env request key w =
      ({| payload := ProductJson p; status := 200 |},
       commit (map (fun x => if has_slug key x then apply_patch pa x else x) (table w))
         (record_event (StoreUpdate (update_values env b) key)
            (record_event ReadBody w))).
Proof.
  destruct (PUT_cases request key w)
    as [[_ E]|[(_ & _ & E)|(Ha & b & Hb & Hnull & E)]]; rewrite E; try discriminate.
  pose proof (update_single_cases (update_values env b) key (record_event ReadBody w))
    as Hup.
  destruct (update_single _ _ _) as [[r|m] w2]; [|discriminate].
  simpl. intros [= ->].
  destruct Hup as (pa & r0 & Hf & Hpa & Hrow & -> & Hu & ->).
  exists b, pa, r0. repeat split; auto.
Qed.

(** A create or an update that answers with an error leaves the rows. *)
Lemma POST_error_table (request : Request) (w : World) (m : string) :
  payload (POST env request w).1 = ErrorJson m ->
  table (POST env request w).2 = table w.
Proof.
  destruct (POST_cases request w)
    as [[_ E]|[(_ & _ & E)|(Ha & b & Hb & Hnull & E)]]; rewrite E; try done.
  destruct (validation_fails b); [done|].
  pose proof (insert_single_cases (create_values env b) (record_event ReadBody w))
    as Hins.
  destruct (insert_single _ _) as [[r|m'] w2]; [discriminate|].
  by rewrite Hins.
Qed.

Lemma PUT_error_table (request : Request) (key : string) (w : World) (m : string) :
  payload (PUT env request key w).1 = ErrorJson m ->
  table (PUT env request key w).2 = table w.
Proof.
  destruct (PUT_cases request key w)
    as [[_ E]|[(_ & _ & E)|(Ha & b & Hb & Hnull & E)]]; rewrite E; try done.
  pose proof (update_single_cases (update_values env b) key (record_event ReadBody w))
    as Hup.
  destruct (update_single _ _ _) as [[r|m'] w2]; [discriminate|].
  by rewrite Hup.
Qed.

(** The mutation handlers answer with a product or with an error. *)
Lemma POST_payload (request : Request) (w : World) :
  (exists p, payload (POST env request w).1 = ProductJson p) \/
  (exists m, payload (POST env request w).1 = ErrorJson m /\
             status (POST env request w).1 <> 201).
Proof.
  destruct (POST_cases request w)
    as [[_ E]|[(_ & _ & E)|(Ha & b & Hb & Hnull & E)]]; rewrite E;
    try (right; eexists; split; [reflexivity|done]).
  destruct (validation_fails b); [right; eexists; split; [reflexivity|done]|].
  destruct (insert_single _ _) as [[r|m'] w2].
  - left. by eexists.
  - right. eexists. split; [reflexivity|done].
Qed.

Lemma PUT_payload (request : Request) (key : string) (w : World) :
  (exists p, payload (PUT env request key w).1 = ProductJson p) \/
  (exists m, payload (PUT env request key w).1 = ErrorJson m /\
             status (PUT env request key w).1 <> 200).
Proof.
  destruct (PUT_cases request key w)
    as [[_ E]|[(_ & _ & E)|(Ha & b & Hb & Hnull & E)]]; rewrite E;
    try (right; eexists; split; [reflexivity|done]).
  destruct (update_single _ _ _) as [[r|m'] w2].
  - left. by eexists.
  - right. eexists. split; [reflexivity|done].
Qed.

End HandlerCases.

(** ** Creating, updating and reading back *)

Lemma filter_has_slug_patched (pa : Patch) (key : string)
    (rows : list Product) :
  pa_slug pa = None ->
  List.filter (has_slug key)
    (map (fun x => if has_slug key x then apply_patch pa x else x) rows)
  = map (apply_patch pa) (List.filter (has_slug key) rows).
Proof.
  intros Hslug. induction rows as [|x l IH]; [reflexivity|]. simpl.
  destruct (has_slug key x) eqn:E; simpl.
  - unfold has_slug at 1. rewrite (apply_patch_slug pa Hslug).
    unfold has_slug in E. rewrite E. simpl. by rewrite IH.
  - rewrite E. exact IH.
Qed.

Lemma apply_patch_idem (pa : Patch) (r : Product) :
  apply_patch pa (apply_patch pa r) = apply_patch pa r.
Proof.
  destruct pa as [i n s d p c v l k]. unfold apply_patch. simpl.
  by destruct i, n, s, d, p, c, v, l, k.
Qed.

Section ApiExtras.
Context `{Postgres}.
Variable env : Env.

(** X1.  [POST] either answers 201 with a product and the table is the
    old one with that product appended, or it answers with an error and
    another status and the table keeps its rows. *)
Theorem create_appends_returned_row (request : Request) (w : World) :
  (exists p, (POST env request w).1 = {| payload := ProductJson p; status := 201 |} /\
             table (POST env request w).2 = (table w ++ [p])%list) \/
  (exists m, payload (POST env request w).1 = ErrorJson m /\
             status (POST env request w).1 <> 201 /\
             table (POST env request w).2 = table w).
Proof.
  destruct (POST_payload env request w) as [[p Hp]|[m [Hm Hs]]].
  - left. exists p.
    destruct (POST_created_inv env request w p Hp) as (b & pa & _ & _ & _ & _ & _ & _ & _ & _ & E).
    by rewrite E.
  - right. exists m. split; [done|]. split; [done|].
    by apply (POST_error_table env request w m).
Qed.

(** The row of a create that answers with a product. *)
Lemma POST_created_contents (request : Request) (w : World) (p : Product) :
  payload (POST env request w).1 = ProductJson p ->
  exists b, body request = Some b /\
    read_as text_in (member b "name") (name p) /\
    read_as text_in (member b "slug") (slug p) /\
    read_as text_in (member b "description") (description p) /\
    read_as numeric_in (member b "price") (price p) /\
    read_as text_in (member b "category") (category p) /\
    read_as int4_in (member b "inventory") (inventory p) /\
    timestamptz_in (JStr (now env)) = Some (last_updated p) /\
    id p = gen_random_uuid (serial w) /\
    created_at p = db_now w.
Proof.
  intros Hp.
  destruct (POST_created_inv env request w p Hp)
    as (b & pa & _ & Hb & _ & Hv & _ & Hpa & Hrow & _).
  destruct (read_patch_create env b pa Hv Hpa)
    as (Hid & Hcr & (n & En & Hn) & (s & Es & Hs) & (d & Ed & Hd) & (q & Eq & Hq)
        & (c & Ec & Hc) & (i & Ei & Hi) & (l & El & Hl)).
  unfold new_row in Hrow. rewrite En, Es, Hid, Hcr, Ed, Eq, Ec, Ei, El in Hrow.
  injection Hrow as <-. simpl.
  exists b. repeat split; assumption.
Qed.

(** X2.  The row a create answers with: its six fields are what the
    table read from the members of the body, its id is freshly generated,
    [created_at] is the table's clock and [last_updated] the time stamp of
    the handler. *)
Theorem create_row_contents (request : Request) (w : World) (p : Product) :
  payload (POST env request w).1 = ProductJson p ->
  exists b, body request = Some b /\
    read_as text_in (member b "name") (name p) /\
    read_as text_in (member b "slug") (slug p) /\
    read_as text_in (member b "description") (description p) /\
    read_as numeric_in (member b "price") (price p) /\
    read_as text_in (member b "category") (category p) /\
    read_as int4_in (member b "inventory") (inventory p) /\
    timestamptz_in (JStr (now env)) = Some (last_updated p) /\
    id p = gen_random_uuid (serial w) /\
    created_at p = db_now w.
Proof. apply POST_created_contents. Qed.

(** A create for a slug that is taken. *)
Lemma POST_duplicate_slug
    (request : Request) (w : World) (b : Json) (s : string) :
  authorised env request -> body request = Some b -> b <> JNull ->
  ~ refused_by_create b ->
  read_as text_in (member b "slug") s -> In s (map slug (table w)) ->
  status (POST env request w).1 = 500 /\
  table (POST env request w).2 = table w.
Proof.
  intros Ha Hb Hnull Hok [j [Ej Hj]] Hin.
  destruct (POST_payload env request w) as [[p Hp]|[m [Hm Hs]]].
  - exfalso.
    destruct (POST_created_inv env request w p Hp)
      as (b' & pa & _ & Hb' & _ & Hv & _ & Hpa & Hrow & Hu & _).
    assert (b' = b) by congruence. subst b'.
    destruct (POST_created_contents request w p Hp) as (b' & Hb'' & _ & [j' [Ej' Hj']] & _).
    assert (b' = b) by congruence. subst b'.
    assert (slug p = s) by congruence.
    apply keys_unique_spec in Hu as [_ Hnd].
    rewrite map_app in Hnd. apply NoDup_app in Hnd as (_ & Hdisj & _).
    apply (Hdisj s); [by apply list_elem_of_In|].
    simpl. subst s. apply list_elem_of_here.
  - split; [|by apply (POST_error_table env request w m)].
    apply authorised_strict_neq in Ha.
    rewrite POST_unfold, Ha, Hb in Hm |- *.
    assert (Hv : validation_fails b = false).
    { destruct (validation_fails b) eqn:E; [|done].
      exfalso. by apply Hok, validation_fails_spec. }
    destruct b; try done; cbv zeta in *; rewrite Hv in *;
      match goal with |- context [insert_single ?v ?x] =>
        destruct (insert_single v x) as [[r|m'] w2] end; done.
Qed.

(** X3.  A create whose slug a row carries already is answered with 500
    and writes nothing. *)
Theorem create_duplicate_slug_rejected
    (request : Request) (w : World) (b : Json) (s : string) :
  authorised env request -> body request = Some b -> b <> JNull ->
  ~ refused_by_create b ->
  read_as text_in (member b "slug") s -> In s (map slug (table w)) ->
  status (POST env request w).1 = 500 /\
  table (POST env request w).2 = table w.
Proof. apply POST_duplicate_slug. Qed.

(** X4.  The mutation handlers keep the keys of the table unique: no
    request makes two rows share an id or a slug. *)
Theorem mutations_keep_keys_unique (request : Request) (key : string) (w : World) :
  keys_unique (table w) = true ->
  keys_unique (table (POST env request w).2) = true /\
  keys_unique (table (PUT env request key w).2) = true.
Proof.
  intros Hu. split.
  - destruct (POST_payload env request w) as [[p Hp]|[m [Hm _]]].
    + destruct (POST_created_inv env request w p Hp)
        as (b & pa & _ & _ & _ & _ & _ & _ & _ & Hu' & E).
      by rewrite E.
    + by rewrite (POST_error_table env request w m Hm).
  - destruct (PUT_payload env request key w) as [[p Hp]|[m [Hm _]]].
    + destruct (PUT_updated_inv env request key w p Hp)
        as (b & pa & r0 & _ & _ & _ & _ & _ & _ & _ & Hu' & E).
      by rewrite E.
    + by rewrite (PUT_error_table env request key w m Hm).
Qed.

(** X5.  A product that [POST] answers with can be read back: [GET] for
    its slug, on the world the create left, answers 200 with that product. *)
Theorem create_then_get (request : Request) (w : World) (p : Product) :
  payload (POST env request w).1 = ProductJson p ->
  (GET (slug p) (POST env request w).2).1 = {| payload := ProductJson p; status := 200 |}.
Proof.
  intros Hp.
  destruct (POST_created_inv env request w p Hp)
    as (b & pa & _ & _ & _ & _ & Hf & _ & _ & Hu & E).
  rewrite E, GET_unfold. unfold select_maybeSingle. simpl. rewrite Hf.
  apply keys_unique_spec in Hu as [_ Hnd].
  rewrite (filter_has_slug_unique p (table w ++ [p]) Hnd).
  - reflexivity.
  - apply in_or_app. right. by left.
Qed.

(** X6.  A product that [PUT] answers with can be read back under the
    slug of the request. *)
Theorem update_then_get (request : Request) (key : string) (w : World) (p : Product) :
  payload (PUT env request key w).1 = ProductJson p ->
  (GET key (PUT env request key w).2).1 = {| payload := ProductJson p; status := 200 |}.
Proof.
  intros Hp.
  destruct (PUT_updated_inv env request key w p Hp)
    as (b & pa & r0 & _ & _ & _ & Hf & Hpa & Hrow & -> & _ & E).
  apply read_patch_update in Hpa as (_ & Hslug & _).
  rewrite E, GET_unfold. unfold select_maybeSingle. simpl. rewrite Hf.
  by rewrite (filter_has_slug_patched pa key (table w) Hslug), Hrow.
Qed.

(** X7.  [GET] for the slug of a row of a table with unique keys, on a
    store that answers, returns 200 with that very row and changes no row. *)
Theorem get_existing_slug (r : Product) (w : World) :
  fault w = None -> keys_unique (table w) = true -> In r (table w) ->
  GET (slug r) w = ({| payload := ProductJson r; status := 200 |},
                    record_event StoreSelect w).
Proof.
  intros Hf Hu Hin. rewrite GET_unfold. unfold select_maybeSingle. simpl.
  rewrite Hf. apply keys_unique_spec in Hu as [_ Hnd].
  by rewrite (filter_has_slug_unique r (table w) Hnd Hin).
Qed.

End ApiExtras.

Section UpdateExtras.
Context `{Postgres}.
Variable env : Env.

(** [update_single] looks at the rows and at the fault only. *)
Lemma update_single_ext (values : gmap string Json) (key : string) (w w2 : World) :
  fault w = fault w2 -> table w = table w2 ->
  (update_single values key w).1 = (update_single values key w2).1 /\
  table (update_single values key w).2 = table (update_single values key w2).2.
Proof.
  intros Hf Ht. unfold update_single. simpl. rewrite Hf, Ht.
  destruct (fault w2); [done|].
  destruct (read_patch values) as [pa|m]; [|done].
  destruct (negb _); [done|].
  by destruct (map (apply_patch pa) _) as [|r [|? ?]].
Qed.

(** Sending to the table what [PUT] sends, twice. *)
Lemma update_single_idem (b : Json) (key : string) (w : World) (e : Event) :
  let first := update_single (update_values env b) key w in
  let second := update_single (update_values env b) key (record_event e first.2) in
  second.1 = first.1 /\ table second.2 = table first.2.
Proof.
  cbv zeta.
  pose proof (update_single_cases (update_values env b) key w) as Hc.
  destruct (update_single (update_values env b) key w) as [[p|m] w1] eqn:E1.
  - destruct Hc as (pa & r0 & Hf & Hpa & Hrow & -> & Hu & ->). simpl.
    destruct (read_patch_update env b pa Hpa) as (Hid & Hslug & _).
    unfold update_single. simpl. rewrite Hf, Hpa.
    assert (Hrows :
      map (fun r => if has_slug key r then apply_patch pa r else r)
        (map (fun x => if has_slug key x then apply_patch pa x else x) (table w))
      = map (fun x => if has_slug key x then apply_patch pa x else x) (table w)).
    { rewrite map_map. apply map_ext. intros x.
      destruct (has_slug key x) eqn:Ex.
      - unfold has_slug at 1. rewrite (apply_patch_slug pa Hslug).
        unfold has_slug in Ex. rewrite Ex. apply apply_patch_idem.
      - by rewrite Ex. }
    rewrite Hrows, Hu. simpl.
    rewrite (filter_has_slug_patched pa key (table w) Hslug), Hrow. simpl.
    by rewrite apply_patch_idem.
  - subst w1. simpl.
    destruct (update_single_ext (update_values env b) key
                (record_event e (record_event (StoreUpdate (update_values env b) key) w))
                w eq_refl eq_refl) as [H1 H2].
    rewrite H1, H2, E1. done.
Qed.

(** X8.  [PUT] never adds or removes a row and never changes an id or a
    creation time; a row
    whose slug is not the one of the request stays as it is, at its place;
    and unless the answer is 200 the whole table stays as it is. *)
Theorem update_frame (request : Request) (key : string) (w : World) :
  length (table (PUT env request key w).2) = length (table w) /\
  map id (table (PUT env request key w).2) = map id (table w) /\
  map created_at (table (PUT env request key w).2) = map created_at (table w) /\
  (forall (i : nat) (r : Product),
      table w !! i = Some r -> slug r <> key ->
      table (PUT env request key w).2 !! i = Some r) /\
  (status (PUT env request key w).1 <> 200 ->
   table (PUT env request key w).2 = table w).
Proof.
  destruct (PUT_payload env request key w) as [[p Hp]|[m [Hm Hs]]].
  - destruct (PUT_updated_inv env request key w p Hp)
      as (b & pa & r0 & _ & _ & _ & _ & Hpa & _ & _ & _ & E).
    destruct (read_patch_update env b pa Hpa) as (Hid & Hslug & Hcr & _).
    rewrite E. simpl. split; [by rewrite length_map|].
    split; [by apply patched_rows_id|].
    split.
    { rewrite map_map. apply map_ext. intros x.
      destruct (has_slug key x); [|reflexivity]. simpl. by rewrite Hcr. }
    split; [|done].
    intros i r Hi Hne. rewrite list_lookup_fmap, Hi. simpl.
    unfold has_slug. by destruct (String.eqb_spec (slug r) key).
  - rewrite (PUT_error_table env request key w m Hm). done.
Qed.

(** X9.  [PUT] is idempotent: the same request sent again, at the same
    time stamp, gets the same answer and leaves the same rows. *)
Theorem update_idempotent (request : Request) (key : string) (w : World) :
  (PUT env request key (PUT env request key w).2).1 = (PUT env request key w).1 /\
  table (PUT env request key (PUT env request key w).2).2
  = table (PUT env request key w).2.
Proof.
  destruct (PUT_cases env request key w)
    as [[Hn E]|[(Ha & Hb & E)|(Ha & b & Hb & Hnull & E)]].
  - rewrite E. simpl. by rewrite E.
  - rewrite E. simpl.
    destruct (PUT_cases env request key (record_event ReadBody w))
      as [[Hn' _]|[(_ & _ & E')|(_ & b & Hb' & Hnull' & _)]]; [done|by rewrite E'|].
    destruct Hb as [Hb|Hb]; congruence.
  - destruct (PUT_cases env request key (PUT env request key w).2)
      as [[Hn' _]|[(_ & Hb' & _)|(_ & b' & Hb' & _ & E')]]; [done|..].
    { destruct Hb' as [Hb'|Hb']; congruence. }
    assert (b' = b) by congruence. subst b'.
    rewrite E'. clear E'. rewrite E.
    pose proof (update_single_idem b key (record_event ReadBody w) ReadBody) as Hi.
    cbv zeta in Hi.
    destruct (update_single (update_values env b) key (record_event ReadBody w))
      as [[p|m] w1]; simpl in *;
      destruct (update_single (update_values env b) key (record_event ReadBody w1))
        as [[p2|m2] w2]; simpl in *; destruct Hi as [Hi1 Hi2]; by simplify_eq.
Qed.

End UpdateExtras.

(** X10.  A create that succeeded cannot be repeated: the same request
    sent again, at any later time stamp, is answered with 500 and writes
    nothing, so the table holds one row of that slug, the created one. *)
Theorem create_twice_rejected `{Postgres} (env env' : Env) (request : Request)
    (w : World) (p : Product) :
  payload (POST env request w).1 = ProductJson p ->
  ADMIN_KEY env' = ADMIN_KEY env ->
  status (POST env' request (POST env request w).2).1 = 500 /\
  table (POST env' request (POST env request w).2).2 = table (POST env request w).2 /\
  List.filter (has_slug (slug p)) (table (POST env request w).2) = [p].
Proof.
  intros Hp Hkey.
  destruct (POST_created_inv env request w p Hp)
    as (b & pa & [k [Hk1 Hk2]] & Hb & Hnull & Hv & _ & _ & _ & Hu & E).
  destruct (POST_created_contents env request w p Hp) as (b' & Hb' & _ & Hslug & _).
  assert (b' = b) by congruence. subst b'.
  assert (Hin : In (slug p) (map slug (table (POST env request w).2))).
  { rewrite E. simpl. rewrite map_app. apply in_or_app. right. by left. }
  destruct (POST_duplicate_slug env' request (POST env request w).2 b (slug p))
    as [H500 Htable]; try done.
  { exists k. by rewrite Hkey. }
  { rewrite <- validation_fails_spec. by rewrite Hv. }
  split; [done|]. split; [done|].
  rewrite E. simpl. apply keys_unique_spec in Hu as [_ Hnd].
  apply filter_has_slug_unique; [done|]. apply in_or_app. right. by left.
Qed.

(** ** Ordered queries *)

Lemma insert_row_Permutation (leb : Product -> Product -> bool) (x : Product)
    (l : list Product) :
  Permutation (insert_row leb x l) (x :: l).
Proof.
  induction l as [|y l IH]; simpl; [reflexivity|].
  destruct (leb x y); [reflexivity|].
  rewrite IH. apply perm_swap.
Qed.

Lemma order_by_Permutation (leb : Product -> Product -> bool) (l : list Product) :
  Permutation (order_by leb l) l.
Proof.
  induction l as [|x l IH]; simpl; [reflexivity|].
  rewrite insert_row_Permutation. by constructor.
Qed.

Lemma StronglySorted_app_cross {A : Type} (R : A -> A -> Prop) (l1 l2 : list A) :
  StronglySorted R (l1 ++ l2) ->
  forall x y, In x l1 -> In y l2 -> R x y.
Proof.
  induction l1 as [|a l1 IH]; intros Hs x y Hx Hy; [destruct Hx|].
  simpl in Hs. apply StronglySorted_inv in Hs as [Hs Ha].
  destruct Hx as [<-|Hx].
  - rewrite List.Forall_forall in Ha. apply Ha. apply in_or_app. by right.
  - by apply IH.
Qed.

(** X11.  When the store answers, the recommended set is the most
    expensive part of the eligible rows (inventory of ten or more): the
    eligible rows are the returned ones plus a rest, no product of the rest
    costs more than a returned one, and the rest is empty unless more than
    six rows are eligible. *)
Theorem recommended_are_most_expensive (w : World) :
  fault w = None ->
  let eligible := List.filter (fun p => 10 <=? inventory p) (table w) in
  let returned := (getRecommendedProducts w).1 in
  exists rest : list Product,
    Permutation (returned ++ rest) eligible /\
    (forall x y, In x returned -> In y rest -> price_not_rising x y) /\
    length returned = Nat.min 6 (length eligible).
Proof.
  intros Hf. unfold getRecommendedProducts, select_rows. simpl. rewrite Hf. simpl.
  set (eligible := List.filter (fun p => 10 <=? inventory p) (table w)).
  exists (skipn 6 (order_by price_descending eligible)).
  split; [|split].
  - rewrite firstn_skipn. apply order_by_Permutation.
  - apply StronglySorted_app_cross. rewrite firstn_skipn.
    apply (order_by_sorted price_descending price_not_rising
             price_descending_sound price_descending_total price_not_rising_trans).
  - rewrite length_firstn.
    rewrite (Permutation_length (order_by_Permutation price_descending eligible)).
    reflexivity.
Qed.

(** ** The dashboard on the table *)

Lemma low_stock_prefix (l : list Product) :
  StronglySorted inventory_not_falling l ->
  l = (low_stock l ++ List.filter (fun p => 5 <=? inventory p) l)%list.
Proof.
  induction 1 as [|x l Hl IH Hx]; [reflexivity|].
  unfold low_stock in *. simpl.
  destruct (Z.ltb_spec (inventory x) 5) as [Hlt|Hge].
  - rewrite (proj2 (Z.leb_gt 5 (inventory x)) Hlt). simpl. by rewrite <- IH.
  - rewrite (proj2 (Z.leb_le 5 (inventory x)) Hge).
    assert (Hnone : List.filter (fun p => inventory p <? 5) l = []).
    { pose proof (proj1 (List.Forall_forall _ _) Hx) as Hall. clear Hx. rename Hall into Hx.
      clear IH Hl. induction l as [|y l IHl]; [reflexivity|]. simpl.
      assert (inventory x <= inventory y) by (apply Hx; by left).
      destruct (Z.ltb_spec (inventory y) 5); [lia|].
      apply IHl. intros z Hz. apply Hx. by right. }
    rewrite Hnone in *. simpl in *. by rewrite <- IH.
Qed.

Lemma inventory_ascending_sound (x y : Product) :
  inventory_ascending x y = true -> inventory_not_falling x y.
Proof. unfold inventory_ascending, inventory_not_falling. apply Z.leb_le. Qed.

Lemma inventory_ascending_total (x y : Product) :
  inventory_ascending x y = false -> inventory_not_falling y x.
Proof. unfold inventory_ascending, inventory_not_falling. rewrite Z.leb_gt. lia. Qed.

Lemma inventory_not_falling_trans (x y z : Product) :
  inventory_not_falling x y -> inventory_not_falling y z -> inventory_not_falling x z.
Proof. unfold inventory_not_falling. lia. Qed.

Lemma filter_all {A : Type} (l : list A) : List.filter (fun _ => true) l = l.
Proof. induction l as [|x l IH]; [reflexivity|]. simpl. by rewrite IH. Qed.

(** X12.  The dashboard over a store that answers: its products are the
    rows of the table, each once, by rising inventory; the total is the
    number of rows; and the low-stock list is the leading part of the
    products, everything after it having five or more in stock.  Over a
    store that refuses, the dashboard is empty. *)
Theorem dashboard_of_table (w : World) :
  (fault w = None ->
   let d := (getDashboardData w).1 in
   Permutation (d_products d) (table w) /\
   StronglySorted inventory_not_falling (d_products d) /\
   totalProducts d = length (table w) /\
   d_products d
   = (lowStockProducts d ++ List.filter (fun p => 5 <=? inventory p) (d_products d))%list) /\
  (fault w <> None ->
   (getDashboardData w).1
   = {| d_products := []; totalProducts := 0; lowStockProducts := [];
        totalValue := 0%Q; categories := ∅ |}).
Proof.
  unfold getDashboardData, select_rows. simpl. split.
  - intros Hf. rewrite Hf. simpl.
    rewrite filter_all.
    assert (Hsorted : StronglySorted inventory_not_falling
                        (order_by inventory_ascending (table w))).
    { apply (order_by_sorted inventory_ascending inventory_not_falling
               inventory_ascending_sound inventory_ascending_total
               inventory_not_falling_trans). }
    split; [apply order_by_Permutation|]. split; [exact Hsorted|].
    split; [apply Permutation_length, order_by_Permutation|].
    by apply low_stock_prefix.
  - intros Hf. destruct (fault w); [reflexivity|done].
Qed.

(** X13.  Listing the catalog: over a store that answers, [GET
    /api/products] answers 200 with the rows of the table, each once, and
    the home page gets the same list; over a store that refuses, the route
    answers 500 with the message of the store and the home page gets an
    empty list.  Neither changes a row. *)
Theorem list_all_products (w : World) :
  (fault w = None ->
   exists ps, GET_products w
              = ({| payload := ProductsJson ps; status := 200 |},
                 record_event StoreSelect w) /\
              getProducts w = (ps, record_event StoreSelect w) /\
              Permutation ps (table w)) /\
  (forall m, fault w = Some m ->
             GET_products w
             = ({| payload := ErrorJson m; status := 500 |}, record_event StoreSelect w) /\
             getProducts w = ([], record_event StoreSelect w)).
Proof.
  unfold GET_products, getProducts, try_catch, mbind, handler_bind, await, select_rows.
  simpl. split.
  - intros Hf. rewrite Hf. simpl. rewrite filter_all.
    eexists. split; [reflexivity|]. split; [reflexivity|].
    apply order_by_Permutation.
  - intros m Hf. rewrite Hf. done.
Qed.

(** X14.  Over a store that answers and a table with unique keys, the
    static parameters of the product page are the slugs of the rows, in
    order and without repetition, and the page of each of them shows the
    row of that slug, never the not-found page. *)
Theorem static_params_resolve (w : World) :
  fault w = None -> keys_unique (table w) = true ->
  (generateStaticParams w).1 = map slug (table w) /\
  NoDup (generateStaticParams w).1 /\
  forall s, In s (generateStaticParams w).1 ->
            exists p, (ProductPage s (generateStaticParams w).2).1 = ProductView p /\
                      slug p = s /\ In p (table w).
Proof.
  intros Hf Hu. apply keys_unique_spec in Hu as [_ Hnd].
  unfold generateStaticParams, select_slugs. simpl. rewrite Hf. simpl.
  split; [reflexivity|]. split; [exact Hnd|].
  intros s Hs. apply in_map_iff in Hs as (p & <- & Hp).
  exists p. split; [|done].
  unfold ProductPage, getProduct, select_maybeSingle. simpl. rewrite Hf.
  by rewrite (filter_has_slug_unique p (table w) Hnd Hp).
Qed.

(** X15.  The product page and the route [GET /api/products/[slug]] read
    the same row: the page shows a product exactly when the route answers
    200 with it, and shows the not-found page in every other case, a store
    failure (500 on the route) included. *)
Theorem product_page_follows_route (s : string) (w : World) :
  (forall p, (ProductPage s w).1 = ProductView p <->
             (GET s w).1 = {| payload := ProductJson p; status := 200 |}) /\
  ((ProductPage s w).1 = NotFoundPage <->
   status (GET s w).1 = 404 \/ status (GET s w).1 = 500).
Proof.
  rewrite GET_unfold. unfold ProductPage, getProduct.
  destruct (select_maybeSingle s w) as [[[p|]|m] w1]; simpl.
  - split.
    + intros q. split; intros [= ->]; reflexivity.
    + split; [done|]. intros [?|?]; done.
  - split.
    + intros q. split; done.
    + split; [by left | done].
  - split.
    + intros q. split; done.
    + split; [by right | done].
Qed.

(** ** The product list component *)

Lemma append_assoc (s t u : string) : (s +:+ t) +:+ u = s +:+ (t +:+ u).
Proof.
  induction s as [|a s IH]; [reflexivity|].
  rewrite !append_cons. by rewrite IH.
Qed.

Lemma includes_empty (s : string) : Js.includes s EmptyString = true.
Proof. by destruct s. Qed.

Lemma includes_app_l (s t u : string) :
  Js.includes s (t +:+ u) = true -> Js.includes s t = true.
Proof.
  rewrite !includes_spec. intros (pre & suf & ->).
  exists pre, (u +:+ suf). by rewrite append_assoc.
Qed.

Lemma includes_app_r (s t u : string) :
  Js.includes s (u +:+ t) = true -> Js.includes s t = true.
Proof.
  rewrite !includes_spec. intros (pre & suf & ->).
  exists (pre +:+ u), suf. by rewrite !append_assoc.
Qed.

Lemma filter_sublist {A : Type} (f g : A -> bool) (l : list A) :
  (forall x, f x = true -> g x = true) ->
  sublist (List.filter f l) (List.filter g l).
Proof.
  intros Hfg. induction l as [|x l IH]; simpl; [constructor|].
  destruct (f x) eqn:Ef.
  - rewrite (Hfg x Ef). by constructor.
  - destruct (g x); [by constructor | exact IH].
Qed.

(** X16.  With the search box empty and the selector on "all", the list
    shows every product, in the order given. *)
Theorem empty_search_shows_all `{Js.Runtime} (products : list Product) :
  filteredProducts products EmptyString "all" = products.
Proof.
  unfold filteredProducts, matchesSearch, matchesCategory.
  rewrite (Js.toLowerCase_basic_latin EmptyString eq_refl). simpl.
  induction products as [|x l IH]; [reflexivity|]. simpl.
  rewrite includes_empty. simpl. by rewrite IH.
Qed.

(** X17.  Narrowing.  A search term in Basic Latin that is extended, at
    either end, by Basic Latin text never shows a product that the shorter
    term hides, and a specific category never shows a product that the
    selector "all" hides: what is shown is a sublist of what was shown.
    Without the restriction on the term this fails: the product named ΟΣΑ
    is hidden by the search ΟΣ and shown once the term is extended to ΟΣΑ. *)
Theorem search_narrows `{Js.Runtime} (products : list Product) (t u c : string) :
  (Js.basic_latin t = true -> Js.basic_latin u = true ->
   sublist (filteredProducts products (t +:+ u) c) (filteredProducts products t c) /\
   sublist (filteredProducts products (u +:+ t) c) (filteredProducts products t c)) /\
  sublist (filteredProducts products t c) (filteredProducts products t "all") /\
  (filteredProducts [greek_product] omicron_sigma "all" = [] /\
   filteredProducts [greek_product] (omicron_sigma +:+ Js.utf8 [913%N]) "all"
   = [greek_product]).
Proof.
  split; [|split; [|exact final_sigma_search]].
  - intros Ht Hu.
    assert (Htu : Js.basic_latin (t +:+ u) = true) by (by rewrite basic_latin_app, Ht, Hu).
    assert (Hut : Js.basic_latin (u +:+ t) = true) by (by rewrite basic_latin_app, Ht, Hu).
    unfold filteredProducts, matchesSearch.
    rewrite (Js.toLowerCase_basic_latin _ Htu), (Js.toLowerCase_basic_latin _ Hut),
      (Js.toLowerCase_basic_latin _ Ht), !lower_basic_latin_app.
    split; apply filter_sublist; intros x; rewrite !andb_true_iff; intros [Hs Hc].
    + split; [by eapply includes_app_l | done].
    + split; [by eapply includes_app_r | done].
  - unfold filteredProducts. apply filter_sublist. intros x.
    rewrite !andb_true_iff. intros [Hs _]. done.
Qed.

Lemma Set_from_acc (l seen : list string) :
  NoDup seen ->
  NoDup (fold_left (fun (seen : list string) (c : string) =>
                      if bool_decide (c ∈ seen) then seen else (seen ++ [c])%list)
                   l seen) /\
  forall x, x ∈ fold_left (fun (seen : list string) (c : string) =>
                             if bool_decide (c ∈ seen) then seen else (seen ++ [c])%list)
                          l seen
            <-> x ∈ seen \/ x ∈ l.
Proof.
  revert seen. induction l as [|c l IH]; intros seen Hnd; simpl.
  - split; [done|]. intros x. rewrite elem_of_nil. tauto.
  - destruct (bool_decide_reflect (c ∈ seen)) as [Hin|Hout].
    + destruct (IH seen Hnd) as [H1 H2]. split; [done|].
      intros x. rewrite H2, elem_of_cons. split; [tauto|].
      intros [?|[->|?]]; auto.
    + destruct (IH (seen ++ [c])%list) as [H1 H2].
      { apply NoDup_app. split; [done|]. split; [|apply NoDup_singleton].
        intros y Hy Hy'. apply list_elem_of_singleton in Hy'. by subst. }
      split; [done|]. intros x.
      rewrite H2, elem_of_app, list_elem_of_singleton, elem_of_cons. tauto.
Qed.

(** X18.  The options of the category selector: "all" first, then each
    category of the products once.  Unless the list of products is empty,
    every option shows at least one product when the search box is empty,
    and an option other than "all" shows the products of that category. *)
Theorem category_options_spec `{Js.Runtime} (products : list Product) :
  (exists rest, category_options products = "all" :: rest /\ NoDup rest /\
                forall c, In c rest <-> exists p, In p products /\ category p = c) /\
  (forall c, In c (category_options products) -> products <> [] ->
             filteredProducts products EmptyString c <> []) /\
  (forall c p, c <> "all" ->
               (In p (filteredProducts products EmptyString c)
                <-> In p products /\ category p = c)).
Proof.
  destruct (Set_from_acc (map category products) [] (NoDup_nil_2)) as [Hnd Hmem].
  assert (Hrest : forall c, In c (Set_from (map category products))
                            <-> exists p, In p products /\ category p = c).
  { intros c. unfold Set_from. rewrite <- list_elem_of_In, Hmem, elem_of_nil.
    rewrite list_elem_of_In, in_map_iff. split.
    - intros [[]|(p & E & Hp)]. by exists p.
    - intros (p & Hp & E). right. by exists p. }
  assert (Hshown : forall c p, In p (filteredProducts products EmptyString c)
                               <-> In p products /\ (c = "all" \/ category p = c)).
  { intros c p. unfold filteredProducts, matchesSearch.
    rewrite (Js.toLowerCase_basic_latin EmptyString eq_refl). simpl.
    rewrite filter_In, includes_empty. simpl. rewrite matchesCategory_spec. tauto. }
  split; [|split].
  - exists (Set_from (map category products)). by split.
  - intros c Hc Hne Hempty.
    destruct Hc as [<-|Hc].
    + destruct products as [|p l]; [done|].
      assert (In p (filteredProducts (p :: l) EmptyString "all")) as Hp
        by (apply Hshown; split; [by left | by left]).
      by rewrite Hempty in Hp.
    + apply Hrest in Hc as (p & Hp & E).
      assert (In p (filteredProducts products EmptyString c)) as Hp'
        by (apply Hshown; split; [done | by right]).
      by rewrite Hempty in Hp'.
  - intros c p Hc. rewrite Hshown. tauto.
Qed.

(** ** Stock badges *)

Lemma recommended_eligible (w : World) :
  Forall (fun p => 10 <= inventory p) (getRecommendedProducts w).1.
Proof.
  unfold getRecommendedProducts, select_rows. simpl.
  destruct (fault w); simpl; [constructor|].
  apply Forall_take. apply order_by_Forall.
  apply List.Forall_forall. intros p Hp.
  apply filter_In in Hp as [_ Hp]. by apply Z.leb_le.
Qed.

(** X19.  The stock badges agree with the pages: a product is on the
    low-stock list of the dashboard exactly when its card in the product
    list is red, a card is red exactly when its row in the admin table is,
    and every recommended product has a green card and a green row. *)
Theorem stock_badges_agree (p : Product) :
  (forall products,
      In p (lowStockProducts (aggregate products))
      <-> In p products /\ list_badge p = Red) /\
  (list_badge p = Red <-> admin_badge p = Red) /\
  (forall w, In p (getRecommendedProducts w).1 ->
             list_badge p = Green /\ admin_badge p = Green).
Proof.
  unfold list_badge, admin_badge. split; [|split].
  - intros products. simpl. rewrite low_stock_spec.
    destruct (Z.ltb_spec (inventory p) 5); [tauto|].
    destruct (inventory p <? 10); split; intros [? ?]; (lia || done).
  - destruct (inventory p <? 5); [done|].
    by destruct (inventory p <? 10).
  - intros w Hin.
    pose proof (proj1 (List.Forall_forall _ _) (recommended_eligible w) p Hin) as Hp.
    simpl in Hp.
    destruct (Z.ltb_spec (inventory p) 5); [lia|].
    destruct (Z.ltb_spec (inventory p) 10); [lia|done].
Qed.

(** ** The counts of the categories, added up *)

Lemma sum_counts_insert (m : gmap string JsObject.prim) (c : string) (n : Z) :
  m !! c = None ->
  sum_counts (<[c := JsObject.PNum n]> m) = sum_counts m + n.
Proof.
  intros Hc. unfold sum_counts.
  rewrite map_fold_insert_L; [reflexivity| |exact Hc].
  intros j1 j2 z1 z2 y _ _ _. destruct z1, z2; lia.
Qed.

Lemma sum_counts_update (m : gmap string JsObject.prim) (c : string) (n k : Z) :
  m !! c = Some (JsObject.PNum k) ->
  sum_counts (<[c := JsObject.PNum n]> m) = sum_counts m - k + n.
Proof.
  intros Hc.
  rewrite <- (insert_delete_eq m c (JsObject.PNum n)).
  rewrite <- (insert_delete_id m c (JsObject.PNum k) Hc) at 2.
  rewrite !sum_counts_insert by apply lookup_delete_eq. lia.
Qed.

(** X20.  When no category names a property that every object inherits,
    the counts of the category object add up to the number of products. *)
Theorem category_counts_add_up (products : list Product) :
  Forall (fun p => JsObject.object_prototype (category p) = None) products ->
  sum_counts (categories (aggregate products)) = Z.of_nat (totalProducts (aggregate products)).
Proof.
  simpl. induction products as [|p l IH] using rev_ind; intros Hall.
  - reflexivity.
  - apply Forall_app in Hall as [Hl Hp]. apply Forall_cons_1 in Hp as [Hp _].
    specialize (IH Hl).
    pose proof (count_categories_spec l Hl (category p)) as Hc.
    unfold count_categories in *. rewrite fold_left_app. simpl.
    unfold count_step at 1. unfold JsObject.set, JsObject.get.
    assert (Hproto : String.eqb (category p) "__proto__" = false).
    { apply String.eqb_neq. intros E. rewrite E in Hp. discriminate. }
    rewrite Hproto, Hc, Hp, length_app. simpl.
    destruct (Z.eqb_spec (category_count (category p) l) 0) as [E|E].
    + simpl. rewrite sum_counts_insert by exact Hc. lia.
    + simpl. destruct (Z.eqb_spec (category_count (category p) l) 0); [done|].
      simpl. rewrite (sum_counts_update _ _ _ _ Hc). lia.
Qed.

(** ** The dashboard after a mutation *)

Section DashboardAfter.
Context `{Postgres}.
Variable env : Env.

Lemma PUT_fault (request : Request) (key : string) (w : World) :
  fault (PUT env request key w).2 = fault w.
Proof.
  destruct (PUT_cases env request key w)
    as [[_ E]|[(_ & _ & E)|(Ha & b & Hb & Hnull & E)]]; rewrite E; try done.
  pose proof (update_single_cases (update_values env b) key (record_event ReadBody w))
    as Hup.
  destruct (update_single _ _ _) as [[r|m'] w2]; simpl.
  - by destruct Hup as (pa & r0 & _ & _ & _ & _ & _ & ->).
  - by rewrite Hup.
Qed.

Lemma dashboard_total (w : World) :
  totalProducts (getDashboardData w).1
  = match fault w with Some _ => 0%nat | None => length (table w) end.
Proof.
  unfold getDashboardData, select_rows. simpl.
  destruct (fault w); [reflexivity|]. simpl. rewrite filter_all.
  apply Permutation_length, order_by_Permutation.
Qed.

(** X24.  The total of the dashboard follows the mutations: after a
    create that answered with a product it is one more than before, and
    after any update request it is what it was. *)
Theorem dashboard_total_after_mutation (request : Request) (key : string) (w : World) :
  (forall p, payload (POST env request w).1 = ProductJson p ->
             totalProducts (getDashboardData (POST env request w).2).1
             = S (totalProducts (getDashboardData w).1)) /\
  totalProducts (getDashboardData (PUT env request key w).2).1
  = totalProducts (getDashboardData w).1.
Proof.
  split.
  - intros p Hp.
    destruct (POST_created_inv env request w p Hp)
      as (b & pa & _ & _ & _ & _ & Hf & _ & _ & _ & E).
    rewrite !dashboard_total, E. simpl. rewrite Hf, length_app. simpl. lia.
  - rewrite !dashboard_total, PUT_fault.
    destruct (fault w); [reflexivity|].
    destruct (PUT_payload env request key w) as [[p Hp]|[m [Hm _]]].
    + destruct (PUT_updated_inv env request key w p Hp)
        as (b & pa & r0 & _ & _ & _ & _ & _ & _ & _ & _ & E).
      rewrite E. simpl. by rewrite length_map.
    + by rewrite (PUT_error_table env request key w m Hm).
Qed.

End DashboardAfter.

(** ** The admin page *)

Section AdminFacts.
Context `{Browser}.

Lemma admin_step_invariant (s s' : AdminState) (e : AdminEvent) :
  admin_invariant s -> admin_step s e = Some s' -> admin_invariant s'.
Proof.
  intros [Hkey Hslug] Hstep. unfold admin_invariant.
  destruct e; unfold admin_step in Hstep; simpl in Hstep.
  - destruct (isAuthenticated s) eqn:Ea; [done|]. by injection Hstep as <-.
  - destruct (isAuthenticated s) eqn:Ea; [done|]. injection Hstep as <-.
    unfold handleLogin. destruct (String.eqb_spec (adminKey s) "admin123"); simpl.
    + by split.
    + rewrite Ea. by split.
  - destruct (isAuthenticated s); [|done]. by injection Hstep as <-.
  - destruct (isAuthenticated s); [|done]. injection Hstep as <-. simpl. auto.
  - destruct (isAuthenticated s && showForm s); [|done]. injection Hstep as <-.
    simpl. auto.
  - destruct (editingProduct s) eqn:Ee; [done|].
    destruct (isAuthenticated s && showForm s); [|done]. injection Hstep as <-.
    simpl. rewrite Ee. split; [auto|done].
  - destruct (isAuthenticated s && showForm s); [|done]. injection Hstep as <-.
    simpl. auto.
  - destruct (isAuthenticated s && showForm s); [|done]. injection Hstep as <-.
    simpl. auto.
  - destruct (isAuthenticated s && showForm s); [|done]. injection Hstep as <-.
    simpl. auto.
  - destruct (isAuthenticated s && showForm s); [|done]. injection Hstep as <-.
    simpl. auto.
  - destruct (isAuthenticated s && showForm s); [|done]. injection Hstep as <-.
    simpl. auto.
  - destruct (isAuthenticated s && showForm s); [|done]. injection Hstep as <-.
    simpl. split; [auto|done].
  - destruct (isAuthenticated s && negb (loading s)); [|done].
    destruct (a_products s !! row) as [p|]; [|done]. injection Hstep as <-.
    simpl. split; [auto|]. by intros q [= <-].
  - injection Hstep as <-. simpl. split; [auto|done].
  - injection Hstep as <-. simpl. auto.
  - injection Hstep as <-. simpl. auto.
  - injection Hstep as <-. simpl. auto.
Qed.

Lemma admin_reachable_invariant (s : AdminState) :
  admin_reachable s -> admin_invariant s.
Proof.
  induction 1 as [|s s' e Hs IH Hstep].
  - split; [done|done].
  - by eapply admin_step_invariant.
Qed.

(** X21.  In every state the admin page can reach, being logged in means
    that the key field holds the hard-coded key, and editing a product means
    that the slug field of the form holds the slug of that product. *)
Theorem admin_page_invariant (s : AdminState) :
  admin_reachable s ->
  (isAuthenticated s = true -> adminKey s = "admin123") /\
  (forall p, editingProduct s = Some p -> f_slug (formData s) = slug p).
Proof. apply admin_reachable_invariant. Qed.

Lemma submit_body_members (f : FormData) :
  member (submit_body f) "name" = Some (JStr (f_name f)) /\
  member (submit_body f) "slug" = Some (JStr (f_slug f)) /\
  member (submit_body f) "description" = Some (JStr (f_description f)) /\
  member (submit_body f) "price" = Some (number_json (parseFloat (f_price f))) /\
  member (submit_body f) "category" = Some (JStr (f_category f)) /\
  member (submit_body f) "inventory"
  = Some (number_json (inject_Z <$> parseInt (f_inventory f))).
Proof. repeat split. Qed.

(** What a submit of the form sends. *)
Lemma submit_call_facts (s s' : AdminState) :
  admin_reachable s -> admin_step s SubmitForm = Some s' ->
  adminKey s = "admin123" /\
  match editingProduct s with
  | Some p => submit_call s
              = CallPUT (slug p) {| x_admin_key := Some "admin123";
                                    body := Some (submit_body (formData s)) |} /\
              member (submit_body (formData s)) "slug" = Some (JStr (slug p))
  | None => submit_call s
            = CallPOST {| x_admin_key := Some "admin123";
                          body := Some (submit_body (formData s)) |}
  end.
Proof.
  intros Hr Hstep. destruct (admin_reachable_invariant s Hr) as [Hkey Hslug].
  unfold admin_step in Hstep. simpl in Hstep.
  destruct (isAuthenticated s) eqn:Ea; [|done].
  specialize (Hkey eq_refl). split; [exact Hkey|].
  unfold submit_call. rewrite Hkey.
  destruct (editingProduct s) as [p|]; [|reflexivity].
  split; [reflexivity|].
  destruct (submit_body_members (formData s)) as (_ & -> & _).
  by rewrite (Hslug p eq_refl).
Qed.


End AdminFacts.

(** X23.  A create submitted from the admin form, at the route: a server
    whose secret is the hard-coded key answers 400 exactly when the name,
    the slug, the description or the category of the form is empty, whatever
    the two number fields hold; a server with another secret, or none,
    answers 401 and touches nothing. *)
Theorem admin_create_at_route `{Postgres} `{Browser} (env : Env) (s s' : AdminState)
    (request : Request) (w : World) :
  admin_reachable s -> admin_step s SubmitForm = Some s' ->
  submit_call s = CallPOST request ->
  (ADMIN_KEY env = Some "admin123" ->
   (status (POST env request w).1 = 400 <->
    f_name (formData s) = EmptyString \/ f_slug (formData s) = EmptyString \/
    f_description (formData s) = EmptyString \/ f_category (formData s) = EmptyString)) /\
  (ADMIN_KEY env <> Some "admin123" -> POST env request w = (unauthorized, w)).
Proof.
  intros Hr Hstep Hcall.
  destruct (submit_call_facts s s' Hr Hstep) as [Hkey Hc].
  destruct (editingProduct s) as [p|]; [destruct Hc; congruence|].
  rewrite Hc in Hcall. injection Hcall as <-.
  destruct (submit_body_members (formData s)) as (En & Es & Ed & Ep & Ec & Ei).
  split.
  - intros Henv.
    destruct (POST_validation env
                {| x_admin_key := Some "admin123";
                   body := Some (submit_body (formData s)) |}
                w (submit_body (formData s))) as (H400 & _).
    + exists "admin123". by split.
    + reflexivity.
    + discriminate.
    + rewrite H400. unfold refused_by_create.
      rewrite En, Es, Ed, Ep, Ec, Ei. simpl.
      rewrite !negb_false_iff, !String.eqb_eq. split.
      * intros [?|[?|[?|[?|[?|?]]]]]; auto; done.
      * intros [?|[?|[?|?]]]; tauto.
  - intros Henv. rewrite POST_unfold.
    rewrite (unauthorised_strict_neq env); [reflexivity|].
    intros [k [E1 E2]]. simpl in E1. congruence.
Qed.

(** ** The further statements at concrete inputs *)

Lemma cable_created :
  payload (POST (H := strict_table) example_env cable_request example_world).1
  = ProductJson cable.
Proof. vm_compute. reflexivity. Qed.

Lemma example_world_unique : keys_unique (table example_world) = true.
Proof. vm_compute. reflexivity. Qed.

Lemma admin_form_open_reachable : admin_reachable (H := blank_browser) admin_form_open.
Proof.
  eapply reachable_step with (e := ToggleForm);
    [eapply reachable_step with (e := SubmitLogin);
      [eapply reachable_step with (e := TypeAdminKey "admin123");
        [apply reachable_initial | reflexivity]
      | reflexivity]
    | reflexivity].
Qed.

(** The cable, as created in the sample world. *)
Lemma create_row_contents_witness :
  exists b, body cable_request = Some b /\
    read_as (text_in (Postgres := strict_table)) (member b "name") "Cable" /\
    read_as (text_in (Postgres := strict_table)) (member b "slug") "cable" /\
    read_as (text_in (Postgres := strict_table)) (member b "description") "A cable" /\
    read_as (numeric_in (Postgres := strict_table)) (member b "price") 4%Q /\
    read_as (text_in (Postgres := strict_table)) (member b "category") "Accessories" /\
    read_as (int4_in (Postgres := strict_table)) (member b "inventory") 30 /\
    timestamptz_in (Postgres := strict_table) (JStr (now example_env))
      = Some "2024-05-01T10:00:00.000Z" /\
    "id-10" = gen_random_uuid (Postgres := strict_table) (serial example_world) /\
    "2024-05-01T10:00:00.000Z" = db_now example_world.
Proof.
  apply (create_row_contents (H := strict_table) example_env cable_request
           example_world cable).
  vm_compute. reflexivity.
Defined.

(** A second mouse under the slug of the first. *)
Lemma create_duplicate_slug_rejected_witness :
  status (POST (H := strict_table) example_env second_mouse_request example_world).1 = 500 /\
  table (POST (H := strict_table) example_env second_mouse_request example_world).2
  = table example_world.
Proof.
  apply (create_duplicate_slug_rejected (H := strict_table) example_env
           second_mouse_request example_world second_mouse_body "wireless-mouse").
  - by exists "admin123".
  - reflexivity.
  - discriminate.
  - intros [E|[E|[E|[E|[E|E]]]]]; discriminate E.
  - by exists (JStr "wireless-mouse").
  - simpl. tauto.
Defined.

Lemma mutations_keep_keys_unique_witness :
  keys_unique (table (POST (H := strict_table) example_env cable_request
                        example_world).2) = true /\
  keys_unique (table (PUT (H := strict_table) example_env rename_request "usb-c-hub"
                        example_world).2) = true.
Proof.
  split.
  - apply (mutations_keep_keys_unique (H := strict_table) example_env cable_request
             "usb-c-hub" example_world).
    vm_compute. reflexivity.
  - apply (mutations_keep_keys_unique (H := strict_table) example_env rename_request
             "usb-c-hub" example_world).
    vm_compute. reflexivity.
Defined.

Lemma create_then_get_witness :
  (GET "cable" (POST (H := strict_table) example_env cable_request example_world).2).1
  = {| payload := ProductJson cable; status := 200 |}.
Proof.
  apply (create_then_get (H := strict_table) example_env cable_request
           example_world cable).
  vm_compute. reflexivity.
Defined.

Lemma update_then_get_witness :
  (GET "usb-c-hub"
     (PUT (H := strict_table) example_env rename_request "usb-c-hub" example_world).2).1
  = {| payload := ProductJson usb_c_dock; status := 200 |}.
Proof.
  apply (update_then_get (H := strict_table) example_env rename_request "usb-c-hub"
           example_world usb_c_dock).
  vm_compute. reflexivity.
Defined.

Lemma get_existing_slug_witness :
  GET "usb-c-hub" example_world
  = ({| payload := ProductJson usb_c_hub; status := 200 |},
     record_event StoreSelect example_world).
Proof.
  apply (get_existing_slug usb_c_hub example_world).
  - reflexivity.
  - vm_compute. reflexivity.
  - simpl. tauto.
Defined.

Lemma create_twice_rejected_witness :
  status (POST (H := strict_table) example_env cable_request
            (POST (H := strict_table) example_env cable_request example_world).2).1 = 500 /\
  table (POST (H := strict_table) example_env cable_request
           (POST (H := strict_table) example_env cable_request example_world).2).2
  = table (POST (H := strict_table) example_env cable_request example_world).2 /\
  List.filter (has_slug "cable")
    (table (POST (H := strict_table) example_env cable_request example_world).2)
  = [cable].
Proof.
  apply (create_twice_rejected (H := strict_table) example_env example_env cable_request
           example_world cable).
  - vm_compute. reflexivity.
  - reflexivity.
Defined.

Lemma recommended_are_most_expensive_witness :
  exists rest : list Product,
    Permutation ((getRecommendedProducts example_world).1 ++ rest)
      (List.filter (fun p => 10 <=? inventory p) (table example_world)) /\
    (forall x y, In x (getRecommendedProducts example_world).1 -> In y rest ->
                 price_not_rising x y) /\
    length (getRecommendedProducts example_world).1
    = Nat.min 6 (length (List.filter (fun p => 10 <=? inventory p)
                           (table example_world))).
Proof.
  apply (recommended_are_most_expensive example_world). reflexivity.
Defined.

Lemma dashboard_of_table_witness :
  Permutation (d_products (getDashboardData example_world).1) (table example_world) /\
  StronglySorted inventory_not_falling (d_products (getDashboardData example_world).1) /\
  totalProducts (getDashboardData example_world).1 = length (table example_world) /\
  d_products (getDashboardData example_world).1
  = (lowStockProducts (getDashboardData example_world).1
     ++ List.filter (fun p => 5 <=? inventory p)
          (d_products (getDashboardData example_world).1))%list.
Proof.
  apply (proj1 (dashboard_of_table example_world)). reflexivity.
Defined.

Lemma list_all_products_witness :
  exists ps, GET_products example_world
             = ({| payload := ProductsJson ps; status := 200 |},
                record_event StoreSelect example_world) /\
             getProducts example_world = (ps, record_event StoreSelect example_world) /\
             Permutation ps (table example_world).
Proof.
  apply (proj1 (list_all_products example_world)). reflexivity.
Defined.

Lemma static_params_resolve_witness :
  (generateStaticParams example_world).1 = map slug (table example_world) /\
  NoDup (generateStaticParams example_world).1 /\
  forall s, In s (generateStaticParams example_world).1 ->
            exists p, (ProductPage s (generateStaticParams example_world).2).1
                      = ProductView p /\
                      slug p = s /\ In p (table example_world).
Proof.
  apply (static_params_resolve example_world).
  - reflexivity.
  - vm_compute. reflexivity.
Defined.

Lemma category_counts_add_up_witness :
  sum_counts (categories (aggregate (table example_world)))
  = Z.of_nat (totalProducts (aggregate (table example_world))).
Proof.
  apply (category_counts_add_up (table example_world)).
  repeat constructor.
Defined.

Lemma admin_page_invariant_witness :
  (isAuthenticated admin_form_open = true -> adminKey admin_form_open = "admin123") /\
  (forall p, editingProduct admin_form_open = Some p ->
             f_slug (formData admin_form_open) = slug p).
Proof.
  apply (admin_page_invariant (H := blank_browser) admin_form_open).
  apply admin_form_open_reachable.
Defined.


Lemma admin_create_at_route_witness :
  (ADMIN_KEY example_env = Some "admin123" ->
   (status (POST (H := strict_table) example_env
              {| x_admin_key := Some "admin123";
                 body := Some (submit_body (H := blank_browser) empty_form) |}
              example_world).1 = 400 <->
    f_name (formData admin_form_open) = EmptyString \/
    f_slug (formData admin_form_open) = EmptyString \/
    f_description (formData admin_form_open) = EmptyString \/
    f_category (formData admin_form_open) = EmptyString)) /\
  (ADMIN_KEY example_env <> Some "admin123" ->
   POST (H := strict_table) example_env
     {| x_admin_key := Some "admin123";
        body := Some (submit_body (H := blank_browser) empty_form) |}
     example_world = (unauthorized, example_world)).
Proof.
  apply (admin_create_at_route (H := strict_table) (H0 := blank_browser) example_env
           admin_form_open (with_message admin_form_open EmptyString)).
  - apply admin_form_open_reachable.
  - reflexivity.
  - reflexivity.
Defined.


(** The sample rows, searched for "mou" and then for "mouse". *)
Lemma search_narrows_witness :
  sublist (filteredProducts (H := Js.reference_runtime) (table example_world)
             ("mou" +:+ "se") "all")
          (filteredProducts (H := Js.reference_runtime) (table example_world) "mou" "all") /\
  sublist (filteredProducts (H := Js.reference_runtime) (table example_world)
             ("se" +:+ "mou") "all")
          (filteredProducts (H := Js.reference_runtime) (table example_world) "mou" "all").
Proof.
  apply (proj1 (search_narrows (H := Js.reference_runtime) (table example_world)
                  "mou" "se" "all")); reflexivity.
Defined.
